(** * Role-scoped task dispatch of the transcript-editor fabfile

    A shallow embedding of [fabfile.py]: the host registry [SERVERS], the
    role resolver [_get_roledefs], the role guard [strict_roles], the
    context tasks [prod] and [r], and the [deploy] sequence with its git
    and service steps.  Python dictionaries are finite maps, the module
    state ([SERVERS], fabric's [env], the memo of [runs_once]) is an
    explicit world threaded through a state-and-exception monad. *)

From stdpp Require Import gmap strings list fin_maps.

Local Open Scope string_scope.
Local Open Scope list_scope.

(** ** Host registry *)

(** One value of the [SERVERS] dictionary. *)
Record Traits := {
  host : string;
  environment : string;
  roles : list string;
}.

(** The [SERVERS] dictionary, as the list of its items in the order in
    which Python enumerates them ([SERVERS.items()], and [SERVERS.values()]
    for the second components). *)
Definition Registry := list (string * Traits).

(** ** Python values and exceptions *)

(** Values returned by tasks: the tasks of the fabfile return [None], the
    role guard returns [False] when it skips. *)
Inductive value :=
| VNone
| VBool (b : bool)
| VStr (s : string).

Inductive exn :=
| SystemExit (msg : string)        (* raised by fabric's [abort] *)
| AttributeError (name : string).  (* reading a key that [env] lacks *)

Inductive outcome (A : Type) :=
| Return (a : A)
| Throw (e : exn).
Arguments Return {A} a.
Arguments Throw {A} e.

(** ** The execution context *)

(** The dictionary [env.git_info] built by [_git_info]. *)
Record GitInfo := {
  revision : string;
  previous_commit : string;
  deployed_commit : string;
  changed_files : list string;
}.

(** The keys of fabric's [env] that the fabfile reads or writes.  A key
    the fabfile creates itself is [None] until it is set. *)
Record Env := {
  env_host : option string;                    (* [env.host], [None] outside a host *)
  env_roledefs : gmap string (list string);    (* [env.roledefs], [{}] at start *)
  env_roles : list string;                     (* [env.roles], [[]] at start *)
  env_warn_only : bool;                        (* [env.warn_only], [False] at start *)
  env_cwd : list string;                       (* directories of the enclosing [cd] blocks *)
  env_user : option string;
  env_git_dir : option string;
  env_environment : option string;
  env_git_branch : option string;
  env_git_revision : option string;
  env_git_info : option GitInfo;
}.

(** A remote command as handed to fabric's [run], and what came back. *)
Record Issued := {
  on_host : option string;
  in_dirs : list string;
  command : string;
  warned : bool;          (* [env.warn_only] when the command ran *)
  failed : bool;          (* the result's [.failed] *)
  stdout : string;        (* the result as a string *)
}.

(** The tasks decorated with [runs_once]. *)
Inductive once_task := Tprod | Tr | Tdeploy.

Global Instance once_task_eq_dec : EqDecision once_task.
Proof. solve_decision. Defined.

Record World := {
  SERVERS : Registry;
  env : Env;
  issued : list Issued;                       (* remote commands so far, oldest first *)
  return_value : once_task → option value;    (* [decorated.return_value] of [runs_once] *)
}.

(** ** State and exception monad *)

Definition M (A : Type) : Type := World → outcome A * World.

Definition raise {A} (e : exn) : M A := λ w, (Throw e, w).

Global Instance M_ret : MRet M := λ A a w, (Return a, w).

Global Instance M_bind : MBind M := λ A B k m w,
  match m w with
  | (Return a, w') => k a w'
  | (Throw e, w') => (Throw e, w')
  end.

Definition get_env : M Env := λ w, (Return (env w), w).

Definition modify_env (f : Env → Env) : M unit := λ w,
  (Return tt,
   {| SERVERS := SERVERS w; env := f (env w); issued := issued w;
      return_value := return_value w |}).

(** [env.name] for a key the fabfile must have set before. *)
Definition attr {A} (name : string) (field : Env → option A) : M A := λ w,
  match field (env w) with
  | Some a => (Return a, w)
  | None => (Throw (AttributeError name), w)
  end.

(** ** Role resolver *)

(** [[ role for traits in SERVERS.values() for role in traits['roles'] ]] *)
Definition listed_roles (servers : Registry) : list string :=
  servers.*2 ≫= roles.

(** The condition of the comprehension in [_get_roledefs]. *)
Definition serves (environment_ role : string) (traits : Traits) : Prop :=
  role ∈ roles traits ∧
  (environment_ = environment traits ∨ environment traits = "all").

Global Instance serves_dec e r t : Decision (serves e r t).
Proof. unfold serves. apply _. Defined.

(** [[ traits['host'] for server, traits in SERVERS.items() if ... ]] *)
Definition hosts_serving (servers : Registry) (environment_ role : string)
  : list string :=
  host <$> filter (serves environment_ role) servers.*2.

(** The loop [for role in roles: roledefs[role] = ...], started from the
    dictionary [roledefs]. *)
Definition fill_roledefs (servers : Registry) (environment_ : string)
    (roles_ : list string) (roledefs : gmap string (list string))
  : gmap string (list string) :=
  foldl (λ roledefs role,
           <[role := hosts_serving servers environment_ role]> roledefs)
        roledefs roles_.

(** [list(set(xs))]: the distinct elements, in the order of the set. *)
Definition list_of_set (xs : list string) : list string :=
  elements (list_to_set xs : gset string).

Definition _get_roledefs (environment_ : string)
  : M (gmap string (list string)) := λ w,
  let roledefs := ∅ in
  let roles_ := list_of_set (listed_roles (SERVERS w)) in
  (Return (fill_roledefs (SERVERS w) environment_ roles_ roledefs), w).

(** ** Updating the context *)

Definition set_host (v : option string) (e : Env) : Env :=
  {| env_host := v; env_roledefs := env_roledefs e; env_roles := env_roles e;
     env_warn_only := env_warn_only e; env_cwd := env_cwd e;
     env_user := env_user e; env_git_dir := env_git_dir e;
     env_environment := env_environment e; env_git_branch := env_git_branch e;
     env_git_revision := env_git_revision e; env_git_info := env_git_info e |}.

Definition set_roledefs (v : gmap string (list string)) (e : Env) : Env :=
  {| env_host := env_host e; env_roledefs := v; env_roles := env_roles e;
     env_warn_only := env_warn_only e; env_cwd := env_cwd e;
     env_user := env_user e; env_git_dir := env_git_dir e;
     env_environment := env_environment e; env_git_branch := env_git_branch e;
     env_git_revision := env_git_revision e; env_git_info := env_git_info e |}.

Definition set_roles (v : list string) (e : Env) : Env :=
  {| env_host := env_host e; env_roledefs := env_roledefs e; env_roles := v;
     env_warn_only := env_warn_only e; env_cwd := env_cwd e;
     env_user := env_user e; env_git_dir := env_git_dir e;
     env_environment := env_environment e; env_git_branch := env_git_branch e;
     env_git_revision := env_git_revision e; env_git_info := env_git_info e |}.

Definition set_warn_only (v : bool) (e : Env) : Env :=
  {| env_host := env_host e; env_roledefs := env_roledefs e;
     env_roles := env_roles e; env_warn_only := v; env_cwd := env_cwd e;
     env_user := env_user e; env_git_dir := env_git_dir e;
     env_environment := env_environment e; env_git_branch := env_git_branch e;
     env_git_revision := env_git_revision e; env_git_info := env_git_info e |}.

Definition set_cwd (v : list string) (e : Env) : Env :=
  {| env_host := env_host e; env_roledefs := env_roledefs e;
     env_roles := env_roles e; env_warn_only := env_warn_only e; env_cwd := v;
     env_user := env_user e; env_git_dir := env_git_dir e;
     env_environment := env_environment e; env_git_branch := env_git_branch e;
     env_git_revision := env_git_revision e; env_git_info := env_git_info e |}.

Definition set_user (v : option string) (e : Env) : Env :=
  {| env_host := env_host e; env_roledefs := env_roledefs e;
     env_roles := env_roles e; env_warn_only := env_warn_only e;
     env_cwd := env_cwd e; env_user := v; env_git_dir := env_git_dir e;
     env_environment := env_environment e; env_git_branch := env_git_branch e;
     env_git_revision := env_git_revision e; env_git_info := env_git_info e |}.

Definition set_git_dir (v : option string) (e : Env) : Env :=
  {| env_host := env_host e; env_roledefs := env_roledefs e;
     env_roles := env_roles e; env_warn_only := env_warn_only e;
     env_cwd := env_cwd e; env_user := env_user e; env_git_dir := v;
     env_environment := env_environment e; env_git_branch := env_git_branch e;
     env_git_revision := env_git_revision e; env_git_info := env_git_info e |}.

Definition set_environment (v : option string) (e : Env) : Env :=
  {| env_host := env_host e; env_roledefs := env_roledefs e;
     env_roles := env_roles e; env_warn_only := env_warn_only e;
     env_cwd := env_cwd e; env_user := env_user e; env_git_dir := env_git_dir e;
     env_environment := v; env_git_branch := env_git_branch e;
     env_git_revision := env_git_revision e; env_git_info := env_git_info e |}.

Definition set_git_branch (v : option string) (e : Env) : Env :=
  {| env_host := env_host e; env_roledefs := env_roledefs e;
     env_roles := env_roles e; env_warn_only := env_warn_only e;
     env_cwd := env_cwd e; env_user := env_user e; env_git_dir := env_git_dir e;
     env_environment := env_environment e; env_git_branch := v;
     env_git_revision := env_git_revision e; env_git_info := env_git_info e |}.

Definition set_git_revision (v : option string) (e : Env) : Env :=
  {| env_host := env_host e; env_roledefs := env_roledefs e;
     env_roles := env_roles e; env_warn_only := env_warn_only e;
     env_cwd := env_cwd e; env_user := env_user e; env_git_dir := env_git_dir e;
     env_environment := env_environment e; env_git_branch := env_git_branch e;
     env_git_revision := v; env_git_info := env_git_info e |}.

Definition set_git_info (v : option GitInfo) (e : Env) : Env :=
  {| env_host := env_host e; env_roledefs := env_roledefs e;
     env_roles := env_roles e; env_warn_only := env_warn_only e;
     env_cwd := env_cwd e; env_user := env_user e; env_git_dir := env_git_dir e;
     env_environment := env_environment e; env_git_branch := env_git_branch e;
     env_git_revision := env_git_revision e; env_git_info := v |}.

(** ** Context managers *)

(** Fabric's context managers are not part of the repository.  A [with]
    block over [env] does [enter] on the way in, and on the way out, also
    when the body raises, [leave] puts back what [enter] replaced (its
    first argument is the context from before the block). *)
Definition with_block {A} (enter : Env → Env) (leave : Env → Env → Env)
    (body : M A) : M A := λ w,
  let before := env w in
  let '(o, w') :=
    body {| SERVERS := SERVERS w; env := enter before; issued := issued w;
            return_value := return_value w |} in
  (o, {| SERVERS := SERVERS w'; env := leave before (env w');
         issued := issued w'; return_value := return_value w' |}).

(** [with settings(warn_only=b):] *)
Definition settings_warn_only {A} (b : bool) (body : M A) : M A :=
  with_block (set_warn_only b)
             (λ before, set_warn_only (env_warn_only before)) body.

(** [with settings(host=h):], as fabric's [execute] does around each call. *)
Definition settings_host {A} (h : string) (body : M A) : M A :=
  with_block (set_host (Some h)) (λ before, set_host (env_host before)) body.

(** [with cd(path):] *)
Definition cd {A} (path : string) (body : M A) : M A :=
  with_block (λ e, set_cwd (env_cwd e ++ [path]) e)
             (λ before, set_cwd (env_cwd before)) body.

(** [with hide('running', 'stdout'):] only silences the console. *)
Definition hide {A} (body : M A) : M A := body.

(** ** Strings *)

(** [s.split('\n')] *)
Fixpoint split_lines (s : string) : list string :=
  match s with
  | EmptyString => [""]
  | String c s' =>
      if decide (c = Ascii.ascii_of_nat 10) then "" :: split_lines s'
      else match split_lines s' with
           | x :: xs => String c x :: xs
           | [] => [String c ""]
           end
  end.

(** The one-character string made of a double quote. *)
Definition dquote : string := String (Ascii.ascii_of_nat 34) "".

(** Python truth of an optional string: [None] and [''] are false. *)
Definition truthy (s : option string) : bool :=
  match s with
  | Some s => negb (String.eqb s "")
  | None => false
  end.

(** [host in hosts], where [host] may be [None]. *)
Definition host_in (h : option string) (hosts : list string) : Prop :=
  match h with
  | Some h => h ∈ hosts
  | None => False
  end.

Global Instance host_in_dec h hosts : Decision (host_in h hosts).
Proof. destruct h; simpl; apply _. Defined.

(** ** Callables and the role guard *)

(** A function object with the attributes the fabfile looks at. *)
Record Callable (Args : Type) := {
  is_Task : bool;                       (* [isinstance(f, tasks.Task)] *)
  roles_attr : option (list string);    (* the attribute [roles], if any *)
  call : Args → M value;
}.
Arguments is_Task {Args} c.
Arguments roles_attr {Args} c.
Arguments call {Args} c args.

(** A plain [def]. *)
Definition def {Args} (body : Args → M value) : Callable Args :=
  {| is_Task := false; roles_attr := None; call := body |}.

(** [tasks.WrappedCallableTask(f)]: a task object that calls [f] and
    answers with [f]'s attributes. *)
Definition WrappedCallableTask {Args} (f : Callable Args) : Callable Args :=
  {| is_Task := true; roles_attr := roles_attr f; call := call f |}.

Definition _wrap_as_new {Args} (original new : Callable Args) : Callable Args :=
  if is_Task original then WrappedCallableTask new else new.

(** The arguments of [strict_roles]: role names, or one iterable of them. *)
Inductive role_args :=
| Names (names : list string)       (* [strict_roles('a', 'b')] *)
| Iterable (names : list string).   (* [strict_roles(['a', 'b'])] *)

(** [list(_values)] after the unwrapping of a single iterable argument. *)
Definition list_values (role_list : role_args) : list string :=
  match role_list with
  | Names names => names
  | Iterable names => names
  end.

(** The [for] loop of [inner_decorator] over the roles still to check. *)
Fixpoint inner_loop {Args} (func : Callable Args) (args : Args)
    (todo : list string) : M value :=
  match todo with
  | [] => mret (VBool false)
  | role :: todo' =>
      e ← get_env;
      if decide (host_in (env_host e) (default [] (env_roledefs e !! role)))
      then call func args
      else inner_loop func args todo'
  end.

(** [inner_decorator], closed over [func]: the roles are those attached
    to [func] when the call is made, [getattr(func, 'roles', [])]. *)
Definition inner_decorator {Args} (func : Callable Args) (args : Args)
  : M value :=
  inner_loop func args (default [] (roles_attr func)).

(** [setattr(f, 'roles', roles)] *)
Definition setattr_roles {Args} (f : Callable Args) (roles_ : list string)
  : Callable Args :=
  {| is_Task := is_Task f; roles_attr := Some roles_; call := call f |}.

(** [attach_list], closed over the [role_list] given to [strict_roles]. *)
Definition attach_list {Args} (role_list : role_args) (func : Callable Args)
  : Callable Args :=
  let _values := list_values role_list in
  let func := setattr_roles func _values in
  let inner_decorator :=
    setattr_roles {| is_Task := false; roles_attr := roles_attr func;
                     call := inner_decorator func |} _values in
  _wrap_as_new func inner_decorator.

Definition strict_roles {Args} (role_list : role_args)
  : Callable Args → Callable Args :=
  attach_list role_list.

(** ** [runs_once] and [task] *)

Definition remember (t : once_task) (v : value) : M unit := λ w,
  (Return tt,
   {| SERVERS := SERVERS w; env := env w; issued := issued w;
      return_value := λ t', if decide (t' = t) then Some v else return_value w t' |}).

(** Fabric's [runs_once(func)], which is not part of the repository: the
    first call that returns keeps its result in the attribute
    [return_value] of the decorated function, named by [t] here, and every
    later call answers with it without calling [func]. *)
Definition runs_once {Args} (t : once_task) (func : Callable Args)
  : Callable Args :=
  let decorated :=
    {| is_Task := false; roles_attr := roles_attr func;
       call := λ args w,
         match return_value w t with
         | Some v => (Return v, w)
         | None => (v ← call func args; remember t v;; mret v) w
         end |} in
  _wrap_as_new func decorated.

(** Fabric's [task(func)]: the function wrapped as a task object. *)
Definition task {Args} (func : Callable Args) : Callable Args :=
  WrappedCallableTask func.

(** ** The fabfile's tasks *)

Definition REPO : string := "git@github.com:nypublicradio/transcript-editor".

Definition _load_shared_env_dict : M unit :=
  modify_env (set_user (Some "transcript"));;
  modify_env (set_git_dir (Some "/opt/transcript/transcript-editor"));;
  environment_ ← attr "environment" env_environment;
  roledefs ← _get_roledefs environment_;
  modify_env (set_roledefs roledefs);;
  e ← get_env;
  modify_env (set_roles
    ((filter (λ item, 0 < length item.2) (map_to_list (env_roledefs e))).*1));;
  environment_ ← attr "environment" env_environment;
  modify_env (set_git_branch (Some environment_)).

Definition prod : Callable unit :=
  task (runs_once Tprod (def (λ _,
    modify_env (set_environment (Some "prod"));;
    _load_shared_env_dict;;
    modify_env (set_git_branch (Some "master"));;
    mret VNone))).

Definition r : Callable string :=
  task (runs_once Tr (def (λ revision_,
    modify_env (set_git_revision (Some revision_));;
    mret VNone))).

Section Fabric.

(** The remote command executor: what the command [cmd], run on [host]
    inside the directories [dirs] after the commands [history], answers:
    whether it failed, and its output. *)
Variable remote :
  ∀ (history : list Issued) (host : option string) (dirs : list string)
    (cmd : string), bool * string.

(** The hosts fabric's [execute] dispatches a task to, from the context
    and the task's [roles]; fabric aborts on a role it cannot resolve. *)
Variable get_hosts : Env → list string → outcome (list string).

(** Modelled from the spec: fabric's [run], the remote command executor,
    is not part of the repository.  It accepts a target host and a command
    string and returns a result with success or failure and the captured
    output; a failure is fatal by default, and does not abort in warn-only
    mode. *)
Definition run (cmd : string) : M Issued := λ w,
  let e := env w in
  let answer := remote (issued w) (env_host e) (env_cwd e) cmd in
  let result :=
    {| on_host := env_host e; in_dirs := env_cwd e; command := cmd;
       warned := env_warn_only e; failed := answer.1; stdout := answer.2 |} in
  let w' := {| SERVERS := SERVERS w; env := e; issued := issued w ++ [result];
               return_value := return_value w |} in
  if failed result && negb (env_warn_only e)
  then (Throw (SystemExit ("run() received nonzero return code: " +:+ cmd)), w')
  else (Return result, w').

(** Modelled from the spec: fabric's [execute], the dispatch of a task,
    is not part of the repository.  The task is invoked once per host, one
    host after the other, the current host being set before each call; a
    failure stops the dispatch.  Without hosts the task is called once, as
    it is. *)
Fixpoint execute_on {Args} (task_ : Callable Args) (args : Args)
    (hosts : list string) : M (list (string * value)) :=
  match hosts with
  | [] => mret []
  | h :: hosts' =>
      v ← settings_host h (call task_ args);
      results ← execute_on task_ args hosts';
      mret ((h, v) :: results)
  end.

(** [execute(task, *args)] *)
Definition execute {Args} (task_ : Callable Args) (args : Args)
  : M (list (string * value)) :=
  e ← get_env;
  match get_hosts e (default [] (roles_attr task_)) with
  | Throw x => raise x
  | Return [] => v ← call task_ args; mret [("<local-only>", v)]
  | Return hosts => execute_on task_ args hosts
  end.

(** *** Git tasks *)

Definition _check_git_dir : Callable unit :=
  strict_roles (Names ["transcript"]) (def (λ _,
    git_dir_check ← settings_warn_only true (
      git_dir ← attr "git_dir" env_git_dir;
      run ("test -d " +:+ git_dir));
    (if failed git_dir_check
     then cd "~/" (run ("git clone " +:+ REPO));; mret tt
     else mret tt);;
    mret VNone)).

Definition _deploy_git : Callable string :=
  strict_roles (Names ["transcript"]) (def (λ branch,
    git_dir ← attr "git_dir" env_git_dir;
    cd git_dir (
      run ("git fetch -q origin +" +:+ branch +:+ ":remotes/origin/" +:+ branch);;
      run ("git reset --hard remotes/origin/" +:+ branch);;
      git_revision ← attr "git_revision" env_git_revision;
      run ("git checkout " +:+ git_revision));;
    mret VNone)).

Definition _git_info : Callable string :=
  strict_roles (Names ["transcript"]) (def (λ branch,
    e ← get_env;
    if bool_decide (is_Some (env_git_info e)) then mret VNone else
    git_dir ← attr "git_dir" env_git_dir;
    info ← cd git_dir (hide (
      run ("git fetch -q origin +" +:+ branch +:+ ":remotes/origin/" +:+ branch);;
      revision_ ← run ("git rev-parse remotes/origin/" +:+ branch);
      changed_files_ ← run ("git diff --no-color --name-only remotes/origin/"
                            +:+ branch +:+ " | cat");
      previous_commit_ ← run "git log --no-color -1 --full-history HEAD | cat";
      deployed_commit_ ← run ("git log --no-color -1 --full-history remotes/origin/"
                              +:+ branch +:+ " | cat");
      mret (revision_, changed_files_, previous_commit_, deployed_commit_)));
    let '(revision_, changed_files_, previous_commit_, deployed_commit_) := info in
    modify_env (set_git_info (Some
      {| revision := stdout revision_;
         previous_commit := stdout previous_commit_;
         deployed_commit := stdout deployed_commit_;
         changed_files := split_lines (stdout changed_files_) |}));;
    mret VNone)).

(** *** Service tasks *)

Definition _install : Callable unit :=
  strict_roles (Names ["transcript"]) (def (λ _,
    git_dir ← attr "git_dir" env_git_dir;
    cd git_dir (
      run "bundle install --path vendor/bundle";;
      run "test -e config/application.yml || ln -s /etc/transcript-editor/application.yml config/application.yml";;
      run "test -e config/database.yml || ln -s /etc/transcript-editor/database.yml config/database.yml";;
      run "RAILS_ENV=production rake db:version || RAILS_ENV=production rake db:setup";;
      run ("RAILS_ENV=production rake project:load[" +:+ dquote
           +:+ "nypr-archives" +:+ dquote +:+ "]"));;
    mret VNone)).

Definition _restart : Callable unit :=
  strict_roles (Names ["transcript"]) (def (λ _,
    run "sudo /usr/systemctl restart transcript";;
    mret VNone)).

(** *** The deploy sequence *)

(** The function [deploy] as written, under its decorators. *)
Definition deploy_def : Callable (option string) :=
  def (λ branch,
    execute _check_git_dir tt;;
    branch ← (if truthy branch then mret (default "" branch)
              else attr "git_branch" env_git_branch);
    execute _git_info branch;;
    e ← get_env;
    (if truthy (env_git_revision e) then mret tt
     else git_info ← attr "git_info" env_git_info;
          modify_env (set_git_revision (Some (revision git_info))));;
    execute _deploy_git branch;;
    execute _install tt;;
    execute _restart tt;;
    mret VNone).

Definition deploy : Callable (option string) :=
  task (runs_once Tdeploy deploy_def).

End Fabric.

(** * Vocabulary of the statements *)

(** ** A starting world *)

Definition initial_env : Env :=
  {| env_host := None; env_roledefs := ∅; env_roles := [];
     env_warn_only := false; env_cwd := []; env_user := None;
     env_git_dir := None; env_environment := None; env_git_branch := None;
     env_git_revision := None; env_git_info := None |}.

(** The module as loaded: the [SERVERS] literal, fabric's defaults, no
    task run yet. *)
Definition initial_world : World :=
  {| SERVERS :=
       [("transcript",
         {| host := "archives-prod-transcript-app.nypr.digital";
            environment := "prod";
            roles := ["transcript"] |})];
     env := initial_env;
     issued := [];
     return_value := λ _, None |}.

(** The world with another registry, or another context. *)
Definition with_servers (servers : Registry) (w : World) : World :=
  {| SERVERS := servers; env := env w; issued := issued w;
     return_value := return_value w |}.

Definition with_env (e : Env) (w : World) : World :=
  {| SERVERS := SERVERS w; env := e; issued := issued w;
     return_value := return_value w |}.

(** The guard's condition: the current host is listed under one of the
    roles. *)
Definition permitted (required : list string) (e : Env) : Prop :=
  Exists (λ role, host_in (env_host e) (default [] (env_roledefs e !! role)))
         required.

Global Instance permitted_dec required e : Decision (permitted required e).
Proof. unfold permitted. apply _. Defined.

(** [[ role for role, hosts in roledefs.items() if len(hosts) > 0 ]] *)
Definition active_roles (roledefs : gmap string (list string)) : list string :=
  (filter (λ item, 0 < length item.2) (map_to_list roledefs)).*1.

(** The context as [prod] leaves it. *)
Definition prod_context (w : World) : Prop :=
  env_environment (env w) = Some "prod" ∧
  env_git_branch (env w) = Some "master" ∧
  _get_roledefs "prod" w = (Return (env_roledefs (env w)), w) ∧
  env_roles (env w) = active_roles (env_roledefs (env w)).

(** The worlds a [fab] run can be in: it starts from the loaded module,
    with any registry, and then calls [prod], [r] and [deploy], with any
    arguments and on any current host. *)
Inductive reachable
    (remote : list Issued → option string → list string → string → bool * string)
    (get_hosts : Env → list string → outcome (list string)) : World → Prop :=
| reach_start servers :
    reachable remote get_hosts (with_servers servers initial_world)
| reach_host w h :
    reachable remote get_hosts w →
    reachable remote get_hosts (with_env (set_host h (env w)) w)
| reach_prod w o w' :
    reachable remote get_hosts w →
    call prod tt w = (o, w') →
    reachable remote get_hosts w'
| reach_r w revision_ o w' :
    reachable remote get_hosts w →
    call r revision_ w = (o, w') →
    reachable remote get_hosts w'
| reach_deploy w branch o w' :
    reachable remote get_hosts w →
    call (deploy remote get_hosts) branch w = (o, w') →
    reachable remote get_hosts w'.

(** ** Frames and logs of the deploy steps *)

(** Which of the keys [git_info] and [git_revision] a step may assign. *)
Inductive footprint := touch_nothing | touch_info | touch_info_revision.

(** [e'] is [e] up to the keys of the footprint. *)
Definition env_frame (fp : footprint) (e e' : Env) : Prop :=
  env_host e' = env_host e ∧ env_roledefs e' = env_roledefs e ∧
  env_roles e' = env_roles e ∧ env_warn_only e' = env_warn_only e ∧
  env_cwd e' = env_cwd e ∧ env_user e' = env_user e ∧
  env_git_dir e' = env_git_dir e ∧ env_environment e' = env_environment e ∧
  env_git_branch e' = env_git_branch e ∧
  (fp ≠ touch_info_revision → env_git_revision e' = env_git_revision e) ∧
  (fp = touch_nothing → env_git_info e' = env_git_info e).

(** A command whose failure aborts: it failed outside warn-only mode. *)
Definition fatal (i : Issued) : Prop := failed i = true ∧ warned i = false.

(** The existence check of the git directory of context [e]. *)
Definition dir_check (e : Env) (i : Issued) : Prop :=
  ∃ git_dir, env_git_dir e = Some git_dir ∧ command i = "test -d " +:+ git_dir.

(** The commands [new] a computation issued before it ended with [o]:
    none of them fatal, or the last one fatal and the end an abort. *)
Definition log_ok {A} (o : outcome A) (new : list Issued) : Prop :=
  match o with
  | Return _ => Forall (λ i, ¬ fatal i) new
  | Throw e =>
      Forall (λ i, ¬ fatal i) new ∨
      ∃ pre i msg, new = pre ++ [i] ∧ Forall (λ i, ¬ fatal i) pre ∧
                   fatal i ∧ e = SystemExit msg
  end.

(** A step that stays within the footprint [fp], leaves registry and memo
    alone, only adds to the log, and, started outside warn-only mode, runs
    nothing but the existence check in warn-only mode and stops at the
    first fatal command. *)
Definition step_ok {A} (fp : footprint) (m : M A) : Prop :=
  ∀ w o w', m w = (o, w') →
    env_frame fp (env w) (env w') ∧
    SERVERS w' = SERVERS w ∧
    return_value w' = return_value w ∧
    ∃ new, issued w' = issued w ++ new ∧
           (env_warn_only (env w) = false →
            Forall (λ i, warned i = true → dir_check (env w) i) new ∧
            log_ok o new).

(** The [git_info] of [w'] is that of [w], or there was none and the new
    one holds the output of the [rev-parse] of [branch] that was issued
    in between. *)
Definition info_fetched (branch : string) (w w' : World) : Prop :=
  ∃ new, issued w' = issued w ++ new ∧
    (env_git_info (env w') = env_git_info (env w) ∨
     (env_git_info (env w) = None ∧
      ∃ gi i, env_git_info (env w') = Some gi ∧ i ∈ new ∧
              command i = "git rev-parse remotes/origin/" +:+ branch ∧
              stdout i = revision gi)).

(** The steps of [deploy] after the revision is settled. *)
Definition deploy_rest
    (remote : list Issued → option string → list string → string → bool * string)
    (get_hosts : Env → list string → outcome (list string))
    (branch : string) : M value :=
  execute get_hosts (_deploy_git remote) branch;;
  execute get_hosts (_install remote) tt;;
  execute get_hosts (_restart remote) tt;;
  mret VNone.

(** A computation that leaves a truthy [git_revision] as it is. *)
Definition keeps_revision {A} (m : M A) : Prop :=
  ∀ w o w', m w = (o, w') →
    truthy (env_git_revision (env w)) = true →
    env_git_revision (env w') = env_git_revision (env w).

(** ** Instances *)

(** The duplicates of a list dropped, first occurrences kept. *)
Fixpoint dedupe (seen l : list string) : list string :=
  match l with
  | [] => []
  | x :: l' => if decide (x ∈ seen) then dedupe seen l'
               else x :: dedupe (x :: seen) l'
  end.

(** A host resolution in fabric's manner: abort on a role that [roledefs]
    lacks, else the hosts of the roles, each once. *)
Definition fabric_hosts (e : Env) (roles_ : list string) : outcome (list string) :=
  if decide (Forall (λ role, is_Some (env_roledefs e !! role)) roles_)
  then Return (dedupe [] (roles_ ≫= λ role, default [] (env_roledefs e !! role)))
  else Throw (SystemExit "The following specified roles do not exist").

(** A remote side on which every command succeeds. *)
Definition remote_ok (history : list Issued) (host_ : option string)
    (dirs : list string) (cmd : string) : bool * string :=
  (false, "0a1b2c").

(** A remote side that lacks the git directory. *)
Definition remote_no_git_dir (history : list Issued) (host_ : option string)
    (dirs : list string) (cmd : string) : bool * string :=
  (bool_decide (cmd = "test -d /opt/transcript/transcript-editor"), "0a1b2c").

Definition two_servers : Registry :=
  [("a", {| host := "host1"; environment := "prod"; roles := ["X"] |});
   ("b", {| host := "host2"; environment := "all"; roles := ["X"; "Y"] |})].

(** A probe task and two contexts, one on a host that holds role ["X"]
    and one on a host that does not. *)
Definition probe : Callable unit := def (λ _, mret (VStr "ran")).

Definition on_host1 : World :=
  with_env (set_host (Some "host1")
              (set_roledefs {["X" := ["host1"]]} initial_env)) initial_world.

Definition on_host2 : World :=
  with_env (set_host (Some "host2")
              (set_roledefs {["X" := ["host1"]]} initial_env)) initial_world.

Definition after_prod : World := (call prod tt initial_world).2.

Definition after_r : World := (call r "v1.0" after_prod).2.

Definition deployed : World :=
  (call (deploy remote_ok fabric_hosts) None after_prod).2.

(** ** Triples over the context and the log *)

(** From a context that satisfies [Pre], the computation [m] only adds
    commands that satisfy [P] to the log, however it ends, and when it
    returns [a] the context satisfies [Post a]. *)
Definition hoare {A} (Pre : Env → Prop) (P : Issued → Prop)
    (Post : A → Env → Prop) (m : M A) : Prop :=
  ∀ w o w', Pre (env w) → m w = (o, w') →
    (∃ new, issued w' = issued w ++ new ∧ Forall P new) ∧
    (∀ a, o = Return a → Post a (env w')).

(** The hosts that [roledefs] lists under the role of the deploy tasks. *)
Definition transcript_hosts (roledefs : gmap string (list string)) : list string :=
  default [] (roledefs !! "transcript").

(** The context has the role map [rd], and the current host is one of its
    hosts for the role of the deploy tasks. *)
Definition on_role_host (rd : gmap string (list string)) (e : Env) : Prop :=
  env_roledefs e = rd ∧ host_in (env_host e) (transcript_hosts rd).

(** The command was issued on one of those hosts. *)
Definition issued_on (rd : gmap string (list string)) (i : Issued) : Prop :=
  host_in (on_host i) (transcript_hosts rd).

(** The steps of [deploy] up to the point where branch and revision are
    settled; the result is the branch. *)
Definition deploy_settle
    (remote : list Issued → option string → list string → string → bool * string)
    (get_hosts : Env → list string → outcome (list string))
    (branch : option string) : M string :=
  execute get_hosts (_check_git_dir remote) tt;;
  branch ← (if truthy branch then mret (default "" branch)
            else attr "git_branch" env_git_branch);
  execute get_hosts (_git_info remote) branch;;
  e ← get_env;
  (if truthy (env_git_revision e) then mret tt
   else git_info ← attr "git_info" env_git_info;
        modify_env (set_git_revision (Some (revision git_info))));;
  mret branch.

(** The command is neither a checkout nor a hard reset. *)
Definition no_checkout_reset (i : Issued) : Prop :=
  (∀ y, command i ≠ "git checkout " +:+ y) ∧
  (∀ b, command i ≠ "git reset --hard remotes/origin/" +:+ b).

(** If the command is a checkout, it is of [revision_]; if it is a hard
    reset, it is to [branch]. *)
Definition checkout_reset_of (revision_ branch : string) (i : Issued) : Prop :=
  (∀ y, command i = "git checkout " +:+ y → y = revision_) ∧
  (∀ b, command i = "git reset --hard remotes/origin/" +:+ b → b = branch).

(** From a context that satisfies [Pre], the computation [m] leaves the
    context as it is and issues, on the current host and inside the
    directories [ds] below the current ones, the commands [cmds] in this
    order: all of them when it returns, a first part of them when it
    raises. *)
Definition issues {A} (Pre : Env → Prop) (ds : list string) (cmds : list string)
    (m : M A) : Prop :=
  ∀ w o w', Pre (env w) → m w = (o, w') →
    env w' = env w ∧
    ∃ new, issued w' = issued w ++ new ∧
      Forall (λ i, on_host i = env_host (env w) ∧
                   in_dirs i = env_cwd (env w) ++ ds) new ∧
      command <$> new `prefix_of` cmds ∧
      (∀ a, o = Return a → command <$> new = cmds).

(** The commands of [_deploy_git] and of [_install]. *)
Definition deploy_git_commands (branch revision_ : string) : list string :=
  ["git fetch -q origin +" +:+ branch +:+ ":remotes/origin/" +:+ branch;
   "git reset --hard remotes/origin/" +:+ branch;
   "git checkout " +:+ revision_].

Definition install_commands : list string :=
  ["bundle install --path vendor/bundle";
   "test -e config/application.yml || ln -s /etc/transcript-editor/application.yml config/application.yml";
   "test -e config/database.yml || ln -s /etc/transcript-editor/database.yml config/database.yml";
   "RAILS_ENV=production rake db:version || RAILS_ENV=production rake db:setup";
   "RAILS_ENV=production rake project:load[" +:+ dquote +:+ "nypr-archives"
     +:+ dquote +:+ "]"].

(** ['\n'.join(lines)] *)
Fixpoint join_lines (lines : list string) : string :=
  match lines with
  | [] => ""
  | line :: rest =>
      match rest with
      | [] => line
      | _ :: _ => line +:+ String (Ascii.ascii_of_nat 10) (join_lines rest)
      end
  end.

(** The string has a newline in it. *)
Fixpoint has_newline (s : string) : bool :=
  match s with
  | EmptyString => false
  | String c s' => bool_decide (c = Ascii.ascii_of_nat 10) || has_newline s'
  end.

(** A dispatcher that calls every task for the prod host and for a host
    that holds no role. *)
Definition careless_hosts (e : Env) (roles_ : list string)
  : outcome (list string) :=
  Return ["archives-prod-transcript-app.nypr.digital"; "elsewhere.example"].

(** The context after [prod], and after [prod] and [r], on the prod host. *)
Definition on_prod_host : World :=
  with_env (set_host (Some "archives-prod-transcript-app.nypr.digital")
              (env after_prod)) after_prod.

Definition on_prod_host_r : World :=
  with_env (set_host (Some "archives-prod-transcript-app.nypr.digital")
              (env after_r)) after_r.

(** The context after a returned [deploy], back on the prod host:
    [git_info] is set and the log holds the commands of the deploy. *)
Definition on_prod_host_deployed : World :=
  with_env (set_host (Some "archives-prod-transcript-app.nypr.digital")
              (env deployed)) deployed.

(** A remote side on which the fetch of [master] fails. *)
Definition remote_no_fetch (history : list Issued) (host_ : option string)
    (dirs : list string) (cmd : string) : bool * string :=
  (bool_decide (cmd = "git fetch -q origin +master:remotes/origin/master"),
   "0a1b2c").

(** A remote side that lacks the git directory and on which the clone
    fails too. *)
Definition remote_no_clone (history : list Issued) (host_ : option string)
    (dirs : list string) (cmd : string) : bool * string :=
  (bool_decide (cmd = "test -d /opt/transcript/transcript-editor")
   || bool_decide (cmd = "git clone " +:+ REPO), "0a1b2c").

(** ** The enumeration order of a dictionary display *)

(** [SERVERS] is written as a dictionary display, and the module runs
    under Python 2 only ([basestring], fabric 1.x), where [items()] and
    [values()] walk the slots of the dictionary's hash table, not the
    display.  The interpreter is not part of the repository; what follows
    is the order CPython 2.7 gives a display of at most five string keys
    on a 64-bit build without hash randomisation: [string_hash] of
    [Objects/stringobject.c] over 64-bit words, and the probe sequence of
    [lookdict_string] of [Objects/dictobject.c] in the table of eight
    slots that such a display never outgrows. *)
Definition wrap64 (x : Z) : Z := (x `mod` 2 ^ 64)%Z.

(** The byte of a character. *)
Definition ord (c : Ascii.ascii) : Z := Z.of_nat (Ascii.nat_of_ascii c).

(** [while (--len >= 0) x = (1000003*x) ^ *p++;] *)
Fixpoint string_hash_loop (x : Z) (s : string) : Z :=
  match s with
  | EmptyString => x
  | String c s' =>
      string_hash_loop (Z.lxor (wrap64 (1000003 * x)) (ord c)) s'
  end.

(** [hash(s)]: [0] for the empty string, else [x = *p << 7], the loop,
    [x ^= len], and [-2] in place of [-1]. *)
Definition string_hash (s : string) : Z :=
  match s with
  | EmptyString => 0%Z
  | String c _ =>
      let x := Z.lxor (string_hash_loop (Z.shiftl (ord c) 7) s)
                      (Z.of_nat (String.length s)) in
      if decide (x = 2 ^ 64 - 1)%Z then (2 ^ 64 - 2)%Z else x
  end.

(** The eight slots of a small dictionary. *)
Definition Slots := list (option (string * Traits)).

(** The slot for [key]: the one at [i & 7] when it is free or holds the
    key, else the one found from [i = (i << 2) + i + perturb + 1] and
    [perturb >>= 5]. *)
Fixpoint lookdict (fuel : nat) (table : Slots) (key : string)
    (i perturb : Z) : option nat :=
  let slot := Z.to_nat (Z.land i 7) in
  match table !! slot with
  | Some None => Some slot
  | Some (Some (key', _)) =>
      if decide (key' = key) then Some slot
      else match fuel with
           | O => None
           | S fuel' =>
               lookdict fuel' table key
                        (wrap64 (Z.shiftl i 2 + i + perturb + 1))
                        (Z.shiftr perturb 5)
           end
  | None => None
  end.

(** [d[key] = value] *)
Definition dict_setitem (table : Slots) (item : string * Traits)
  : option Slots :=
  let h := string_hash item.1 in
  slot ← lookdict 64 table item.1 (Z.land h 7) h;
  Some (<[slot := Some item]> table).

(** The items of the dictionary that the display [{k1: v1, k2: v2, ...}]
    builds, in the order in which the dictionary enumerates them: the
    entries are stored one after the other as they are written, and
    enumerated slot by slot. *)
Definition dict_display (display : list (string * Traits)) : option Registry :=
  if decide (length display ≤ 5)%nat then
    table ← foldl (λ table item, table ≫= λ t, dict_setitem t item)
                  (Some (replicate 8 None)) display;
    Some (omap id table)
  else None.

(** A registry written with two descriptors that share the role ["X"]
    in [prod], and the items of that dictionary as it enumerates them. *)
Definition displayed_servers : list (string * Traits) :=
  [("b", {| host := "host1"; environment := "prod"; roles := ["X"] |});
   ("c", {| host := "host2"; environment := "all"; roles := ["X"] |})].

Definition hashed_servers : Registry :=
  [("c", {| host := "host2"; environment := "all"; roles := ["X"] |});
   ("b", {| host := "host1"; environment := "prod"; roles := ["X"] |})].

(** * Properties of the role resolver *)

Lemma fill_roledefs_snoc servers E rs r m :
  fill_roledefs servers E (rs ++ [r]) m
  = <[r := hosts_serving servers E r]> (fill_roledefs servers E rs m).
Proof. unfold fill_roledefs. by rewrite foldl_app. Qed.

Lemma fill_roledefs_lookup servers E rs m R :
  fill_roledefs servers E rs m !! R
  = if decide (R ∈ rs) then Some (hosts_serving servers E R) else m !! R.
Proof.
  induction rs as [|r rs IH] using rev_ind.
  - done.
  - rewrite fill_roledefs_snoc.
    rewrite lookup_insert, IH.
    destruct (decide (r = R)) as [->|Hne].
    + rewrite decide_True; [done|].
      apply elem_of_app. right. by apply list_elem_of_singleton.
    + destruct (decide (R ∈ rs)) as [Hin|Hnin].
      * rewrite decide_True; [done|]. apply elem_of_app. by left.
      * rewrite decide_False; [done|].
        rewrite elem_of_app, list_elem_of_singleton. intros [?|?]; congruence.
Qed.

Lemma elem_of_listed_roles servers R :
  R ∈ listed_roles servers
  ↔ ∃ server traits, (server, traits) ∈ servers ∧ R ∈ roles traits.
Proof.
  unfold listed_roles. rewrite list_elem_of_bind. split.
  - intros (traits & HR & Hin). apply list_elem_of_fmap in Hin as ([server t] & -> & Hin).
    by exists server, t.
  - intros (server & traits & Hin & HR). exists traits. split; [done|].
    apply list_elem_of_fmap. by exists (server, traits).
Qed.

Lemma elem_of_list_of_set xs x : x ∈ list_of_set xs ↔ x ∈ xs.
Proof. unfold list_of_set. rewrite elem_of_elements. set_solver. Qed.

Lemma elem_of_hosts_serving servers E R h :
  h ∈ hosts_serving servers E R
  ↔ ∃ server traits, (server, traits) ∈ servers ∧ host traits = h ∧ serves E R traits.
Proof.
  unfold hosts_serving. rewrite list_elem_of_fmap. split.
  - intros (traits & -> & Hin). apply list_elem_of_filter in Hin as [Hs Hin].
    apply list_elem_of_fmap in Hin as ([server t] & -> & Hin).
    by exists server, t.
  - intros (server & traits & Hin & <- & Hs). exists traits. split; [done|].
    apply list_elem_of_filter. split; [done|].
    apply list_elem_of_fmap. by exists (server, traits).
Qed.

Lemma hosts_serving_app s1 s2 E R :
  hosts_serving (s1 ++ s2) E R = hosts_serving s1 E R ++ hosts_serving s2 E R.
Proof. unfold hosts_serving. by rewrite fmap_app, filter_app, fmap_app. Qed.

Lemma hosts_serving_cons server traits s E R :
  hosts_serving ((server, traits) :: s) E R
  = if decide (serves E R traits) then host traits :: hosts_serving s E R
    else hosts_serving s E R.
Proof.
  unfold hosts_serving. simpl. rewrite filter_cons. simpl.
  by case_decide.
Qed.

(** What [_get_roledefs] returns, and that it leaves the world alone. *)
Lemma _get_roledefs_run E w :
  _get_roledefs E w
  = (Return (fill_roledefs (SERVERS w) E (list_of_set (listed_roles (SERVERS w))) ∅), w).
Proof. reflexivity. Qed.

Lemma _get_roledefs_lookup E w rd w' R :
  _get_roledefs E w = (Return rd, w') →
  rd !! R = if decide (R ∈ listed_roles (SERVERS w))
            then Some (hosts_serving (SERVERS w) E R) else None.
Proof.
  rewrite _get_roledefs_run. intros [= <- <-].
  rewrite fill_roledefs_lookup, lookup_empty.
  destruct (decide (R ∈ listed_roles (SERVERS w))) as [Hin|Hnin].
  - rewrite decide_True; [done | by apply elem_of_list_of_set].
  - rewrite decide_False; [done | by rewrite elem_of_list_of_set].
Qed.

(** C2: for a role [R] that is a key of the resolved map, a host is in
    the sequence [_get_roledefs(E)[R]] exactly when some descriptor of the
    registry has that host, lists [R] among its roles, and has the
    environment [E] or the wildcard ["all"]. *)
Theorem roledefs_host_iff_descriptor (E : string) (w w' : World)
    (rd : gmap string (list string)) (R : string) (hosts : list string)
    (h : string) :
  _get_roledefs E w = (Return rd, w') →
  rd !! R = Some hosts →
  h ∈ hosts ↔
  ∃ server traits,
    (server, traits) ∈ SERVERS w ∧ host traits = h ∧ R ∈ roles traits ∧
    (environment traits = E ∨ environment traits = "all").
Proof.
  intros Hrun Hlook.
  rewrite (_get_roledefs_lookup _ _ _ _ R Hrun) in Hlook.
  case_decide; [|done]. injection Hlook as <-.
  rewrite elem_of_hosts_serving. unfold serves.
  split; intros (server & traits & Hin & Hh & HR & Henv);
    exists server, traits; repeat split; try done;
    destruct Henv as [Henv|Henv]; auto.
Qed.

Lemma roledefs_host_iff_descriptor_witness :
  let h := "archives-prod-transcript-app.nypr.digital" in
  h ∈ [h] ↔
  ∃ server traits,
    (server, traits) ∈ SERVERS initial_world ∧ host traits = h ∧
    "transcript" ∈ roles traits ∧
    (environment traits = "prod" ∨ environment traits = "all").
Proof.
  apply (roledefs_host_iff_descriptor "prod" initial_world initial_world
           (fill_roledefs (SERVERS initial_world) "prod"
              (list_of_set (listed_roles (SERVERS initial_world))) ∅)
           "transcript").
  - reflexivity.
  - vm_compute. reflexivity.
Defined.

(** C3: the keys of [_get_roledefs(E)] are exactly the roles listed by the
    descriptors of the registry, whatever their environment: a role that
    only descriptors of other environments list is a key with the empty
    sequence, a role no descriptor lists is not a key at all. *)
Theorem roledefs_keys_are_listed_roles (E : string) (w : World) :
  ∃ rd, _get_roledefs E w = (Return rd, w) ∧
    dom rd = list_to_set (listed_roles (SERVERS w)) ∧
    (∀ R, R ∈ dom rd ↔
          ∃ server traits, (server, traits) ∈ SERVERS w ∧ R ∈ roles traits) ∧
    (∀ R, (∃ server traits, (server, traits) ∈ SERVERS w ∧ R ∈ roles traits) →
          (∀ server traits, (server, traits) ∈ SERVERS w → R ∈ roles traits →
                            environment traits ≠ E ∧ environment traits ≠ "all") →
          rd !! R = Some []) ∧
    (∀ R, (∀ server traits, (server, traits) ∈ SERVERS w → R ∉ roles traits) →
          rd !! R = None ∧ rd !! R ≠ Some []).
Proof.
  eexists. split; [apply _get_roledefs_run|].
  set (rd := fill_roledefs _ _ _ _).
  assert (Hlook : ∀ R, rd !! R = if decide (R ∈ listed_roles (SERVERS w))
                                  then Some (hosts_serving (SERVERS w) E R) else None).
  { intros R. by apply (_get_roledefs_lookup E w rd w R). }
  assert (Hdom : ∀ R, R ∈ dom rd ↔ R ∈ listed_roles (SERVERS w)).
  { intros R. rewrite elem_of_dom, Hlook.
    destruct (decide (R ∈ listed_roles (SERVERS w))) as [Hin|Hnin].
    - split; [done | by eexists].
    - split; [by intros [? ?] | done]. }
  split; [|split; [|split]].
  - apply set_eq. intros R. rewrite Hdom. by rewrite elem_of_list_to_set.
  - intros R. rewrite Hdom. apply elem_of_listed_roles.
  - intros R Hlisted Hother. rewrite Hlook.
    rewrite decide_True by by apply elem_of_listed_roles.
    f_equal. apply elem_of_nil_inv. intros h Hh.
    apply elem_of_hosts_serving in Hh as (server & traits & Hin & _ & HR & Henv).
    destruct (Hother server traits Hin HR) as [H1 H2].
    destruct Henv; congruence.
  - intros R Hnone.
    assert (rd !! R = None) as ->; [|done].
    rewrite Hlook. rewrite decide_False; [done|].
    rewrite elem_of_listed_roles. intros (server & traits & Hin & HR).
    by apply (Hnone server traits).
Qed.

(** C4, for the order of the enumeration: when two descriptors that
    both match [E] (directly or through ["all"]) list the role [R], the
    sequence [_get_roledefs(E)[R]] holds both hosts, the host of the
    descriptor that [SERVERS.items()] enumerates first before the other,
    among the hosts of the other matching descriptors in the order of
    that enumeration. *)
Theorem roledefs_registry_order (E : string) (w w' : World)
    (rd : gmap string (list string)) (R : string)
    (before between after : Registry) (s1 s2 : string) (t1 t2 : Traits) :
  _get_roledefs E w = (Return rd, w') →
  SERVERS w = before ++ (s1, t1) :: between ++ (s2, t2) :: after →
  R ∈ roles t1 → (environment t1 = E ∨ environment t1 = "all") →
  R ∈ roles t2 → (environment t2 = E ∨ environment t2 = "all") →
  rd !! R = Some (hosts_serving before E R ++ host t1 ::
                  hosts_serving between E R ++ host t2 ::
                  hosts_serving after E R).
Proof.
  intros Hrun Hsplit HR1 HE1 HR2 HE2.
  rewrite (_get_roledefs_lookup _ _ _ _ R Hrun).
  rewrite decide_True.
  2:{ apply elem_of_listed_roles. exists s1, t1. split; [|done].
      rewrite Hsplit. apply elem_of_app. right. by left. }
  assert (serves E R t1) by (split; [done | destruct HE1; auto]).
  assert (serves E R t2) by (split; [done | destruct HE2; auto]).
  rewrite Hsplit, hosts_serving_app, hosts_serving_cons, decide_True by done.
  by rewrite hosts_serving_app, hosts_serving_cons, decide_True by done.
Qed.

Lemma roledefs_registry_order_witness :
  fill_roledefs two_servers "prod" (list_of_set (listed_roles two_servers)) ∅ !! "X"
  = Some (hosts_serving [] "prod" "X" ++ "host1" ::
          hosts_serving [] "prod" "X" ++ "host2" :: hosts_serving [] "prod" "X").
Proof.
  apply (roledefs_registry_order "prod" (with_servers two_servers initial_world)
           (with_servers two_servers initial_world) _ "X" [] [] []
           "a" "b"
           {| host := "host1"; environment := "prod"; roles := ["X"] |}
           {| host := "host2"; environment := "all"; roles := ["X"; "Y"] |}).
  - reflexivity.
  - reflexivity.
  - simpl. apply elem_of_cons. by left.
  - left. reflexivity.
  - simpl. apply elem_of_cons. by left.
  - right. reflexivity.
Defined.

(** The hash of a one-letter key, as CPython 2.7 prints it. *)
Lemma string_hash_a : string_hash "a" = 12416037344%Z.
Proof. vm_compute. reflexivity. Qed.

(** C4 does not hold for the order of the display: in the registry
    written as [{'b': host1, 'c': host2}], both of role ["X"] and both
    matching [prod], the descriptor of [host1] appears first, the
    dictionary enumerates the one of [host2] first, and
    [_get_roledefs('prod')['X']] is [host2] before [host1]. *)
Lemma roledefs_registry_order_counterexample :
  host <$> displayed_servers.*2 = ["host1"; "host2"] ∧
  dict_display displayed_servers = Some hashed_servers ∧
  (_get_roledefs "prod" (with_servers hashed_servers initial_world)).1
  = Return {["X" := ["host2"; "host1"]]}.
Proof.
  split; [reflexivity|]. split; vm_compute; reflexivity.
Qed.

Lemma fill_roledefs_same_elements servers E rs1 rs2 :
  (∀ x, x ∈ rs1 ↔ x ∈ rs2) →
  fill_roledefs servers E rs1 ∅ = fill_roledefs servers E rs2 ∅.
Proof.
  intros Hsame. apply map_eq. intros R. rewrite !fill_roledefs_lookup.
  destruct (decide (R ∈ rs1)) as [Hin|Hnin].
  - rewrite decide_True; [done | by apply Hsame].
  - rewrite decide_False; [done | by rewrite <- Hsame].
Qed.

(** C6: [_get_roledefs(E)] returns a map and leaves the world, the
    registry with it, as it was; called a second time it returns the
    same map; and the map does not depend on the order in which Python
    enumerates the set of role names. *)
Theorem roledefs_twice_identical (E : string) (w : World) :
  ∃ rd,
    _get_roledefs E w = (Return rd, w) ∧
    (rd1 ← _get_roledefs E; rd2 ← _get_roledefs E; mret (rd1, rd2)) w
      = (Return (rd, rd), w) ∧
    ∀ order : list string,
      (∀ role, role ∈ order ↔ role ∈ listed_roles (SERVERS w)) →
      fill_roledefs (SERVERS w) E order ∅ = rd.
Proof.
  eexists. split; [apply _get_roledefs_run|]. split; [reflexivity|].
  intros order Hsame. apply fill_roledefs_same_elements.
  intros x. rewrite Hsame. by rewrite elem_of_list_of_set.
Qed.

(** * Properties of the role guard *)

Lemma permitted_exists required e :
  permitted required e ↔
  ∃ role h, role ∈ required ∧ env_host e = Some h ∧
            h ∈ default [] (env_roledefs e !! role).
Proof.
  unfold permitted. rewrite Exists_exists. split.
  - intros (role & Hin & Hhost). destruct (env_host e) as [h|] eqn:Hh; [|done].
    by exists role, h.
  - intros (role & h & Hin & Hh & Hhost). exists role. split; [done|].
    by rewrite Hh.
Qed.

Lemma inner_loop_run {Args} (func : Callable Args) args todo w :
  inner_loop func args todo w
  = if decide (permitted todo (env w)) then call func args w
    else (Return (VBool false), w).
Proof.
  induction todo as [|role todo IH].
  - destruct (decide (permitted [] (env w))) as [Hp|Hp]; [|done].
    by apply Exists_nil in Hp.
  - change (inner_loop func args (role :: todo) w)
      with ((if decide (host_in (env_host (env w))
                                (default [] (env_roledefs (env w) !! role)))
             then call func args else inner_loop func args todo) w).
    destruct (decide (permitted (role :: todo) (env w))) as [Hp|Hp];
      destruct (decide (host_in _ _)) as [Hhost|Hhost]; rewrite ?IH; try done.
    + apply Exists_cons in Hp as [?|Hp]; [done|]. by rewrite decide_True.
    + exfalso. apply Hp. by apply Exists_cons_hd.
    + rewrite decide_False; [done|]. intros ?. apply Hp. by apply Exists_cons_tl.
Qed.

(** The guard reads the roles attached to the wrapped function. *)
Lemma inner_decorator_run {Args} (func : Callable Args) args w :
  inner_decorator func args w
  = if decide (permitted (default [] (roles_attr func)) (env w))
    then call func args w else (Return (VBool false), w).
Proof. apply inner_loop_run. Qed.

Lemma strict_roles_run {Args} role_list (func : Callable Args) args w :
  call (strict_roles role_list func) args w
  = if decide (permitted (list_values role_list) (env w)) then call func args w
    else (Return (VBool false), w).
Proof.
  unfold strict_roles, attach_list, _wrap_as_new. simpl.
  destruct (is_Task func); simpl; by rewrite inner_decorator_run.
Qed.

Lemma strict_roles_roles_attr {Args} role_list (func : Callable Args) :
  roles_attr (strict_roles role_list func) = Some (list_values role_list).
Proof.
  unfold strict_roles, attach_list, _wrap_as_new. simpl.
  by destruct (is_Task func).
Qed.

(** C1: the guarded function carries the required roles; called in a
    context whose current host is a member of [roledefs[r]] for some
    required role [r] (a role missing from [roledefs] counting as an empty
    sequence) it is the call of the wrapped task: same result, same
    effects; in every other context it returns [False] and the world is
    untouched, the task not having run. *)
Theorem strict_roles_guard {Args : Type} (role_list : role_args)
    (func : Callable Args) (args : Args) (w : World) :
  roles_attr (strict_roles role_list func) = Some (list_values role_list) ∧
  ((∃ role h, role ∈ list_values role_list ∧ env_host (env w) = Some h ∧
              h ∈ default [] (env_roledefs (env w) !! role)) →
   call (strict_roles role_list func) args w = call func args w) ∧
  (¬ (∃ role h, role ∈ list_values role_list ∧ env_host (env w) = Some h ∧
                h ∈ default [] (env_roledefs (env w) !! role)) →
   call (strict_roles role_list func) args w = (Return (VBool false), w)).
Proof.
  split; [apply strict_roles_roles_attr|].
  rewrite strict_roles_run, <- permitted_exists.
  split; intros Hp.
  - by rewrite decide_True.
  - by rewrite decide_False.
Qed.

(** C5: evaluating the guard raises nothing of its own.  Without
    permission (the current host under no required role, a role missing
    from [roledefs] or mapped to the empty sequence included) the call
    returns [False] normally and changes nothing; and whenever the guarded
    call ends in an exception, permission was present and the exception
    is the one the wrapped task itself raised. *)
Theorem strict_roles_never_raises {Args : Type} (role_list : role_args)
    (func : Callable Args) (args : Args) (w : World) :
  (¬ (∃ role h, role ∈ list_values role_list ∧ env_host (env w) = Some h ∧
                h ∈ default [] (env_roledefs (env w) !! role)) →
   call (strict_roles role_list func) args w = (Return (VBool false), w)) ∧
  (∀ e w', call (strict_roles role_list func) args w = (Throw e, w') →
           (∃ role h, role ∈ list_values role_list ∧ env_host (env w) = Some h ∧
                      h ∈ default [] (env_roledefs (env w) !! role)) ∧
           call func args w = (Throw e, w')).
Proof.
  rewrite strict_roles_run, <- permitted_exists.
  destruct (decide (permitted (list_values role_list) (env w))) as [Hp|Hp].
  - split; [by intros Hn | intros e w' Hthrow].
    split; [by apply permitted_exists | done].
  - split; [done | intros e w' Hthrow; congruence].
Qed.

Lemma on_host1_permitted :
  ∃ role h, role ∈ list_values (Names ["X"]) ∧ env_host (env on_host1) = Some h ∧
            h ∈ default [] (env_roledefs (env on_host1) !! role).
Proof.
  exists "X", "host1". split; [apply elem_of_cons; by left|].
  split; [reflexivity|]. vm_compute. apply elem_of_cons. by left.
Defined.

Lemma on_host2_not_permitted :
  ¬ ∃ role h, role ∈ list_values (Names ["X"; "Y"]) ∧
              env_host (env on_host2) = Some h ∧
              h ∈ default [] (env_roledefs (env on_host2) !! role).
Proof.
  intros Hp. apply permitted_exists in Hp. revert Hp.
  apply (bool_decide_eq_false_1 (permitted _ _)). vm_compute. reflexivity.
Defined.

Lemma strict_roles_guard_witness :
  call (strict_roles (Names ["X"]) probe) tt on_host1 = (Return (VStr "ran"), on_host1) ∧
  call (strict_roles (Names ["X"; "Y"]) probe) tt on_host2
    = (Return (VBool false), on_host2).
Proof.
  split.
  - apply (proj1 (proj2 (strict_roles_guard (Names ["X"]) probe tt on_host1))).
    apply on_host1_permitted.
  - apply (proj2 (proj2 (strict_roles_guard (Names ["X"; "Y"]) probe tt on_host2))).
    apply on_host2_not_permitted.
Defined.

Lemma strict_roles_never_raises_witness :
  call (strict_roles (Iterable ["X"; "Y"]) probe) tt on_host2
    = (Return (VBool false), on_host2).
Proof.
  apply (proj1 (strict_roles_never_raises (Iterable ["X"; "Y"]) probe tt on_host2)).
  apply on_host2_not_permitted.
Defined.

Lemma env_frame_refl fp e : env_frame fp e e.
Proof. unfold env_frame. tauto. Qed.

Lemma env_frame_trans fp e1 e2 e3 :
  env_frame fp e1 e2 → env_frame fp e2 e3 → env_frame fp e1 e3.
Proof.
  unfold env_frame.
  intros (?&?&?&?&?&?&?&?&?&Hr1&Hi1) (?&?&?&?&?&?&?&?&?&Hr2&Hi2).
  repeat split; try congruence.
  - intros Hfp. rewrite (Hr2 Hfp). by apply Hr1.
  - intros Hfp. rewrite (Hi2 Hfp). by apply Hi1.
Qed.

Lemma env_frame_weaken fp e e' :
  env_frame touch_nothing e e' → env_frame fp e e'.
Proof.
  unfold env_frame. intros (?&?&?&?&?&?&?&?&?&Hr&Hi).
  repeat split; try done.
  - intros _. by apply Hr.
  - intros _. by apply Hi.
Qed.

Lemma bind_inv {A B} (m : M A) (k : A → M B) w o w' :
  (m ≫= k) w = (o, w') →
  (∃ e, m w = (Throw e, w') ∧ o = Throw e) ∨
  (∃ a w1, m w = (Return a, w1) ∧ k a w1 = (o, w')).
Proof.
  unfold mbind, M_bind. destruct (m w) as [[a|e] w1].
  - intros Hk. right. by exists a, w1.
  - intros [= <- <-]. left. by exists e.
Qed.

Lemma log_ok_app {A B} (a : A) (o : outcome B) new1 new2 :
  log_ok (Return a) new1 → log_ok o new2 → log_ok o (new1 ++ new2).
Proof.
  simpl. intros H1 H2. destruct o as [b|e]; simpl in *.
  - by apply Forall_app.
  - destruct H2 as [H2|(pre & i & msg & -> & Hpre & Hi & ->)].
    + left. by apply Forall_app.
    + right. exists (new1 ++ pre), i, msg. rewrite app_assoc.
      split; [done|]. split; [by apply Forall_app|]. by split.
Qed.

Lemma log_ok_throw {A B} (e : exn) new :
  log_ok (A:=A) (Throw e) new → log_ok (A:=B) (Throw e) new.
Proof. done. Qed.

Lemma dir_check_frame fp e e' i :
  env_frame fp e e' → dir_check e' i → dir_check e i.
Proof.
  intros (_&_&_&_&_&_&Hdir&_) (git_dir & Hg & Hc). exists git_dir.
  split; [congruence | done].
Qed.

Lemma step_ok_weaken {A} fp (m : M A) :
  step_ok touch_nothing m → step_ok fp m.
Proof.
  intros Hm w o w' Hrun. destruct (Hm w o w' Hrun) as (Hf & ? & ? & ?).
  split; [by apply env_frame_weaken | done].
Qed.

Lemma step_ok_ret {A} fp (a : A) : step_ok fp (mret a).
Proof.
  intros w o w' [= <- <-]. split; [apply env_frame_refl|].
  repeat split. exists []. rewrite app_nil_r. split; [done|].
  intros _. split; constructor.
Qed.

Lemma step_ok_raise {A} fp e : step_ok fp (raise (A:=A) e).
Proof.
  intros w o w' [= <- <-]. split; [apply env_frame_refl|].
  repeat split. exists []. rewrite app_nil_r. split; [done|].
  intros _. split; [constructor | left; constructor].
Qed.

Lemma step_ok_get_env fp : step_ok fp get_env.
Proof.
  intros w o w' [= <- <-]. split; [apply env_frame_refl|].
  repeat split. exists []. rewrite app_nil_r. split; [done|].
  intros _. split; constructor.
Qed.

Lemma step_ok_attr {A} fp name (field : Env → option A) :
  step_ok fp (attr name field).
Proof.
  intros w o w'. unfold attr. destruct (field (env w)); intros [= <- <-].
  - split; [apply env_frame_refl|].
    repeat split. exists []. rewrite app_nil_r. split; [done|].
    intros _. split; constructor.
  - split; [apply env_frame_refl|].
    repeat split. exists []. rewrite app_nil_r. split; [done|].
    intros _. split; [constructor | left; constructor].
Qed.

Lemma step_ok_bind {A B} fp (m : M A) (k : A → M B) :
  step_ok fp m → (∀ a, step_ok fp (k a)) → step_ok fp (m ≫= k).
Proof.
  intros Hm Hk w o w' Hrun.
  apply bind_inv in Hrun as [(e & Hrun & ->)|(a & w1 & Hrun1 & Hrun2)].
  - destruct (Hm w _ w' Hrun) as (Hf & Hs & Hr & new & Hnew & Hlog).
    split; [done|]. repeat split; try done. exists new. split; [done|].
    intros Hw. destruct (Hlog Hw) as [? ?]. split; [done|].
    by eapply log_ok_throw.
  - destruct (Hm w _ w1 Hrun1) as (Hf1 & Hs1 & Hr1 & new1 & Hnew1 & Hlog1).
    destruct (Hk a w1 o w' Hrun2) as (Hf2 & Hs2 & Hr2 & new2 & Hnew2 & Hlog2).
    split; [by eapply env_frame_trans|].
    split; [congruence|]. split; [congruence|].
    exists (new1 ++ new2). split; [by rewrite Hnew2, Hnew1, app_assoc|].
    intros Hw. destruct (Hlog1 Hw) as [Hd1 Hl1].
    assert (Hw1 : env_warn_only (env w1) = false).
    { destruct Hf1 as (_&_&_&Hwarn&_). congruence. }
    destruct (Hlog2 Hw1) as [Hd2 Hl2]. split.
    + apply Forall_app. split; [done|].
      eapply Forall_impl; [exact Hd2|]. intros i Hi Hwarned.
      eapply dir_check_frame; [exact Hf1 | by apply Hi].
    + by eapply log_ok_app.
Qed.

Lemma step_ok_set_git_info fp gi :
  fp ≠ touch_nothing → step_ok fp (modify_env (set_git_info gi)).
Proof.
  intros Hfp w o w' [= <- <-]. simpl.
  split; [unfold env_frame; simpl; repeat split; done|].
  repeat split. exists []. rewrite app_nil_r. split; [done|].
  intros _. split; constructor.
Qed.

Lemma step_ok_set_git_revision rev :
  step_ok touch_info_revision (modify_env (set_git_revision rev)).
Proof.
  intros w o w' [= <- <-]. simpl.
  split; [unfold env_frame; simpl; repeat split; done|].
  repeat split. exists []. rewrite app_nil_r. split; [done|].
  intros _. split; constructor.
Qed.

Lemma step_ok_cd {A} fp path (body : M A) :
  step_ok fp body → step_ok fp (cd path body).
Proof.
  intros Hbody w o w'. unfold cd, with_block.
  destruct (body _) as [o1 w1] eqn:Hrun. intros [= <- <-].
  destruct (Hbody _ _ _ Hrun) as (Hf & Hs & Hr & new & Hnew & Hlog).
  simpl in *. split.
  { unfold env_frame in *. simpl in *.
    destruct Hf as (?&?&?&?&?&?&?&?&?&?&?). repeat split; done. }
  repeat split; try done. exists new. split; [done|].
  intros Hw. destruct (Hlog Hw) as [Hd Hl]. split; [|done].
  eapply Forall_impl; [exact Hd|]. intros i Hi Hwarned.
  destruct (Hi Hwarned) as (git_dir & Hg & Hc). by exists git_dir.
Qed.

Lemma step_ok_settings_host {A} fp h (body : M A) :
  step_ok fp body → step_ok fp (settings_host h body).
Proof.
  intros Hbody w o w'. unfold settings_host, with_block.
  destruct (body _) as [o1 w1] eqn:Hrun. intros [= <- <-].
  destruct (Hbody _ _ _ Hrun) as (Hf & Hs & Hr & new & Hnew & Hlog).
  simpl in *. split.
  { unfold env_frame in *. simpl in *.
    destruct Hf as (?&?&?&?&?&?&?&?&?&?&?). repeat split; done. }
  repeat split; try done. exists new. split; [done|].
  intros Hw. destruct (Hlog Hw) as [Hd Hl]. split; [|done].
  eapply Forall_impl; [exact Hd|]. intros i Hi Hwarned.
  destruct (Hi Hwarned) as (git_dir & Hg & Hc). by exists git_dir.
Qed.

Lemma step_ok_strict_roles {Args} fp role_list (func : Callable Args) args :
  step_ok fp (call func args) →
  step_ok fp (call (strict_roles role_list func) args).
Proof.
  intros Hfunc w o w'. rewrite strict_roles_run.
  case_decide; [apply Hfunc | apply (step_ok_ret fp (VBool false))].
Qed.

Section Steps.

Variable remote :
  ∀ (history : list Issued) (host : option string) (dirs : list string)
    (cmd : string), bool * string.
Variable get_hosts : Env → list string → outcome (list string).

Lemma step_ok_run fp cmd : step_ok fp (run remote cmd).
Proof.
  intros w o w'. unfold run. simpl.
  destruct (remote _ _ _ _) as [failed_ out] eqn:Hanswer. simpl.
  destruct failed_, (env_warn_only (env w)) eqn:Hwarn; simpl;
    intros Heq; injection Heq as <- <-; simpl;
    (split; [apply env_frame_refl|]); repeat split; try done;
    eexists; (split; [reflexivity|]); intros Hw; try done.
  - split; [by repeat constructor|].
    right. eexists [], _, _. repeat split; done.
  - split; [by repeat constructor|].
    constructor; [|constructor]. by intros [? ?].
Qed.

(** The block [with settings(warn_only=True): run('test -d ...')]. *)
Lemma step_ok_dir_check fp :
  step_ok fp (settings_warn_only true (
    git_dir ← attr "git_dir" env_git_dir;
    run remote ("test -d " +:+ git_dir))).
Proof.
  intros w o w'. unfold settings_warn_only, with_block, attr, run.
  unfold mbind, M_bind. simpl.
  destruct (env_git_dir (env w)) as [git_dir|] eqn:Hdir; simpl.
  - rewrite andb_false_r. intros [= <- <-]. simpl.
    split; [unfold env_frame; simpl; repeat split; done|].
    repeat split. eexists. split; [reflexivity|].
    intros Hw. split.
    + constructor; [|constructor]. intros _. by exists git_dir.
    + constructor; [|constructor]. simpl. by intros [? ?].
  - intros [= <- <-]. simpl.
    split; [unfold env_frame; simpl; repeat split; done|].
    repeat split. exists []. rewrite app_nil_r. split; [done|].
    intros _. split; [constructor | left; constructor].
Qed.

Lemma step_ok_execute_on {Args} fp (task_ : Callable Args) args hosts :
  step_ok fp (call task_ args) →
  step_ok fp (execute_on task_ args hosts).
Proof.
  intros Htask. induction hosts as [|h hosts IH]; simpl.
  - apply step_ok_ret.
  - apply step_ok_bind; [by apply step_ok_settings_host|]. intros v.
    apply step_ok_bind; [done|]. intros results. apply step_ok_ret.
Qed.

Lemma step_ok_execute {Args} fp (task_ : Callable Args) args :
  step_ok fp (call task_ args) →
  step_ok fp (execute get_hosts task_ args).
Proof.
  intros Htask. unfold execute.
  apply step_ok_bind; [apply step_ok_get_env|]. intros e.
  destruct (get_hosts e _) as [[|h hosts]|x].
  - apply step_ok_bind; [done|]. intros v. apply step_ok_ret.
  - by apply step_ok_execute_on.
  - apply step_ok_raise.
Qed.

Ltac step_ok_tac :=
repeat (
  lazymatch goal with
  | |- step_ok _ (call _ _) => fail
  | _ => idtac
  end;
  first
  [ apply step_ok_ret
  | apply step_ok_execute
  | apply step_ok_raise
  | apply step_ok_get_env
  | apply step_ok_attr
  | apply step_ok_run
  | apply step_ok_dir_check
  | apply step_ok_cd; unfold hide
  | apply step_ok_bind; [|intros ?]
  | match goal with
    | |- step_ok _ (if ?b then _ else _) => destruct b
    | |- step_ok _ (let '(_, _) := ?p in _) => destruct p
    end ]).

Lemma step_ok_check_git_dir fp : step_ok fp (call (_check_git_dir remote) tt).
Proof. apply step_ok_strict_roles. cbv beta iota delta [call def]. step_ok_tac. Qed.

Lemma step_ok_deploy_git fp branch :
  step_ok fp (call (_deploy_git remote) branch).
Proof. apply step_ok_strict_roles. cbv beta iota delta [call def]. step_ok_tac. Qed.

Lemma step_ok_install fp : step_ok fp (call (_install remote) tt).
Proof. apply step_ok_strict_roles. cbv beta iota delta [call def]. step_ok_tac. Qed.

Lemma step_ok_restart fp : step_ok fp (call (_restart remote) tt).
Proof. apply step_ok_strict_roles. cbv beta iota delta [call def]. step_ok_tac. Qed.

Lemma step_ok_git_info fp branch :
  fp ≠ touch_nothing → step_ok fp (call (_git_info remote) branch).
Proof.
  intros Hfp. apply step_ok_strict_roles. cbv beta iota delta [call def]. step_ok_tac.
  by apply step_ok_set_git_info.
Qed.

Lemma step_ok_deploy_def branch :
  step_ok touch_info_revision (call (deploy_def remote get_hosts) branch).
Proof.
  cbv beta iota delta [call def deploy_def]. step_ok_tac.
  - apply step_ok_check_git_dir.
  - by apply step_ok_git_info.
  - apply step_ok_set_git_revision.
  - apply step_ok_deploy_git.
  - apply step_ok_install.
  - apply step_ok_restart.
Qed.

Lemma runs_once_run {Args} t (func : Callable Args) args w :
call (task (runs_once t func)) args w
= match return_value w t with
  | Some v => (Return v, w)
  | None => (v ← call func args; remember t v;; mret v) w
  end.
Proof.
unfold task, runs_once, _wrap_as_new, WrappedCallableTask.
by destruct (is_Task func).
Qed.

(** A call of a [runs_once] task either answers from the memo and changes
  nothing, or runs the function and, when that returns, records the
  result. *)
Lemma runs_once_inv {Args} t (func : Callable Args) args w o w' :
call (task (runs_once t func)) args w = (o, w') →
(∃ v, return_value w t = Some v ∧ o = Return v ∧ w' = w) ∨
(return_value w t = None ∧
 ∃ w1, call func args w = (o, w1) ∧
       env w' = env w1 ∧ SERVERS w' = SERVERS w1 ∧ issued w' = issued w1 ∧
       (∀ t', t' ≠ t → return_value w' t' = return_value w1 t') ∧
       (∀ v, o = Return v → return_value w' t = Some v)).
Proof.
rewrite runs_once_run. destruct (return_value w t) as [v|] eqn:Hmemo.
- intros [= <- <-]. left. by exists v.
- intros Hrun. right. split; [done|].
  apply bind_inv in Hrun as [(e & Hrun & ->)|(v & w1 & Hrun1 & Hrun2)].
  + exists w'. repeat split; done.
  + exists w1. injection Hrun2 as <- <-. simpl.
    repeat split; try done.
    * intros t' Hne. by rewrite decide_False.
    * intros v' [= <-]. by rewrite decide_True.
Qed.

Lemma log_ok_fatal_last {A} (o : outcome A) new pre i post :
log_ok o new → new = pre ++ i :: post → fatal i →
post = [] ∧ ∃ msg, o = Throw (SystemExit msg).
Proof.
intros Hlog -> Hfatal.
assert (Hno : ¬ Forall (λ i, ¬ fatal i) (pre ++ i :: post)).
{ intros Hall. apply Forall_app in Hall as [_ Hall].
  apply Forall_cons in Hall as [Hi _]. done. }
destruct o as [a|e]; simpl in Hlog; [done|].
destruct Hlog as [Hall|(pre' & i' & msg & Heq & Hpre & _ & ->)]; [done|].
split; [|by exists msg].
destruct post as [|x post _] using rev_ind; [done|]. exfalso.
change (pre ++ i :: post ++ [x]) with (pre ++ (i :: post) ++ [x]) in Heq.
rewrite app_assoc in Heq. apply app_inj_tail in Heq as [<- _].
apply Hno. apply Forall_app in Hpre as [Hpre1 Hpre2].
apply Forall_app. split; [done|].
apply Forall_cons in Hpre2 as [Hi _]. done.
Qed.

(** What [_check_git_dir] issues: nothing when the guard skips or
    [git_dir] is unset, else the existence check in warn-only mode,
    followed by the clone when the check failed. *)
Lemma _check_git_dir_issued w o w' :
  call (_check_git_dir remote) tt w = (o, w') →
  issued w' = issued w ∨
  ∃ git_dir check,
    env_git_dir (env w) = Some git_dir ∧
    ((issued w' = issued w ++ [check] ∧ failed check = false) ∨
     (∃ clone, issued w' = issued w ++ [check; clone] ∧
               failed check = true ∧
               command clone = "git clone " +:+ REPO ∧
               warned clone = env_warn_only (env w))) ∧
    command check = "test -d " +:+ git_dir ∧ warned check = true.
Proof.
  unfold _check_git_dir. rewrite strict_roles_run.
  case_decide; [|intros [= <- <-]; by left].
  cbv beta iota delta [call def].
  unfold settings_warn_only, cd, with_block, attr, run, mbind, M_bind, mret, M_ret.
  simpl. destruct (env_git_dir (env w)) as [git_dir|] eqn:Hdir; simpl;
    [|intros [= <- <-]; by left].
  rewrite andb_false_r. simpl.
  destruct (remote _ _ _ _).1 eqn:Hfailed; simpl.
  - match goal with
    | |- context [if ?b then _ else _] => destruct b
    end; simpl; intros [= <- <-]; simpl; right;
      eexists git_dir, _; (split; [done|]);
      (split; [right; eexists; split; [by rewrite <- app_assoc|done] | done]).
  - intros [= <- <-]. simpl. right.
    eexists git_dir, _. split; [done|]. split; [left; by split | done].
Qed.

(** What [_check_git_dir] does on a permitted host with [git_dir] in
    the context: the existence check is issued, in warn-only mode, with
    the answer of the remote side; when it did not fail nothing follows,
    and when it failed the clone follows, in the mode of the caller. *)
Lemma _check_git_dir_permitted git_dir w o w' :
  permitted ["transcript"] (env w) →
  env_git_dir (env w) = Some git_dir →
  call (_check_git_dir remote) tt w = (o, w') →
  ∃ check rest,
    issued w' = issued w ++ check :: rest ∧
    command check = "test -d " +:+ git_dir ∧
    warned check = true ∧
    failed check
    = (remote (issued w) (env_host (env w)) (env_cwd (env w))
         ("test -d " +:+ git_dir)).1 ∧
    (failed check = false → rest = [] ∧ o = Return VNone) ∧
    (failed check = true →
     ∃ clone,
       rest = [clone] ∧
       command clone = "git clone " +:+ REPO ∧
       warned clone = env_warn_only (env w) ∧
       (failed clone = false → o = Return VNone) ∧
       (failed clone = true → env_warn_only (env w) = false →
        ∃ msg, o = Throw (SystemExit msg))).
Proof.
  intros Hp Hdir. unfold _check_git_dir.
  rewrite strict_roles_run, decide_True by done.
  cbv beta iota delta [call def].
  unfold settings_warn_only, cd, with_block, attr, run, mbind, M_bind, mret, M_ret.
  simpl. rewrite Hdir. simpl. rewrite andb_false_r. simpl.
  destruct (remote _ _ _ _).1 eqn:Hfailed; simpl.
  - match goal with
    | |- context [if ?b then _ else _] => destruct b eqn:Hclone
    end; simpl; intros [= <- <-]; simpl;
      eexists _, [_]; (split; [by rewrite <- app_assoc|]); simpl;
      (split; [done|]); (split; [done|]); (split; [done|]);
      (split; [done|]); intros _; eexists; (split; [done|]); simpl;
      (split; [done|]); (split; [done|]); split.
    + intros Hok. rewrite Hok in Hclone. done.
    + intros _ _. by eexists.
    + done.
    + intros Hbad Hwarn. rewrite Hbad, Hwarn in Hclone. done.
  - intros [= <- <-]. simpl.
    eexists _, []. split; [done|]. simpl.
    split; [done|]. split; [done|]. split; [done|]. split; [done|].
    intros [=].
Qed.
(** C8: in a [deploy] started outside warn-only mode, the only command
    run in warn-only mode is the existence check of the git directory,
    and the failure of any other command is fatal: it is the last
    command issued and [deploy] ends in an abort.  [_check_git_dir]
    runs its check in warn-only mode and issues the clone exactly when
    the check failed: on a permitted host with [git_dir] in the context
    the check is issued, its failure does not abort and is followed by
    the clone, its success ends the task, and a clone that fails
    outside warn-only mode aborts. *)
Theorem only_dir_check_is_warn_only :
  (∀ branch w o w',
     env_warn_only (env w) = false →
     call (deploy remote get_hosts) branch w = (o, w') →
     ∃ new, issued w' = issued w ++ new ∧
       (∀ i, i ∈ new → warned i = true → dir_check (env w) i) ∧
       (∀ pre i post, new = pre ++ i :: post →
          failed i = true → ¬ dir_check (env w) i →
          post = [] ∧ ∃ msg, o = Throw (SystemExit msg))) ∧
  (∀ w o w',
     call (_check_git_dir remote) tt w = (o, w') →
     ∃ new, issued w' = issued w ++ new ∧
       (∀ i, i ∈ new → dir_check (env w) i → warned i = true) ∧
       ((∃ i, i ∈ new ∧ command i = "git clone " +:+ REPO) ↔
        (∃ i, i ∈ new ∧ dir_check (env w) i ∧ failed i = true))) ∧
  (∀ git_dir w o w',
     permitted ["transcript"] (env w) →
     env_git_dir (env w) = Some git_dir →
     call (_check_git_dir remote) tt w = (o, w') →
     ∃ check rest,
       issued w' = issued w ++ check :: rest ∧
       command check = "test -d " +:+ git_dir ∧
       warned check = true ∧
       failed check
       = (remote (issued w) (env_host (env w)) (env_cwd (env w))
            ("test -d " +:+ git_dir)).1 ∧
       (failed check = false → rest = [] ∧ o = Return VNone) ∧
       (failed check = true →
        ∃ clone,
          rest = [clone] ∧
          command clone = "git clone " +:+ REPO ∧
          warned clone = env_warn_only (env w) ∧
          (failed clone = false → o = Return VNone) ∧
          (failed clone = true → env_warn_only (env w) = false →
           ∃ msg, o = Throw (SystemExit msg)))).
Proof.
  split; [|split; [|apply _check_git_dir_permitted]].
  - intros branch w o w' Hwarn Hrun.
    assert (∃ new, issued w' = issued w ++ new ∧
              Forall (λ i, warned i = true → dir_check (env w) i) new ∧
              log_ok o new) as (new & Hnew & Hdir & Hlog).
    { apply runs_once_inv in Hrun
        as [(v & _ & -> & ->)|(_ & w1 & Hrun & _ & _ & Hiss & _)].
      - exists []. rewrite app_nil_r. repeat split; constructor.
      - destruct (step_ok_deploy_def branch w o w1 Hrun)
          as (_ & _ & _ & new & Hnew & Hlog).
        exists new. destruct (Hlog Hwarn) as [? ?].
        split; [congruence | done]. }
    exists new. split; [done|]. split.
    + intros i Hi. by apply (proj1 (Forall_forall _ _) Hdir).
    + intros pre i post Hsplit Hfailed Hnot.
      apply (log_ok_fatal_last o new pre i post Hlog Hsplit).
      split; [done|].
      destruct (warned i) eqn:Hwarned; [exfalso|done].
      apply Hnot. apply (proj1 (Forall_forall _ _) Hdir); [|done].
      rewrite Hsplit. apply elem_of_app. right. by left.
  - intros w o w' Hrun.
    destruct (_check_git_dir_issued w o w' Hrun)
      as [Hsame|(git_dir & check & Hdir &
                 [[Hiss Hok]|(clone & Hiss & Hfailed & Hclone & _)] &
                 Hcmd & Hwarned)].
    + exists []. rewrite app_nil_r. split; [done|]. split.
      * by intros i Hi%elem_of_nil.
      * split; intros (i & Hi%elem_of_nil & _); done.
    + exists [check]. split; [done|]. split.
      * intros i Hi _. by apply list_elem_of_singleton in Hi as ->.
      * split.
        -- intros (i & Hi & Hc). apply list_elem_of_singleton in Hi as ->.
           rewrite Hcmd in Hc. discriminate.
        -- intros (i & Hi & _ & Hf). apply list_elem_of_singleton in Hi as ->.
           congruence.
    + exists [check; clone]. split; [done|]. split.
      * intros i Hi (git_dir' & Hdir' & Hc).
        apply elem_of_cons in Hi as [->|Hi]; [done|].
        apply list_elem_of_singleton in Hi as ->.
        rewrite Hclone in Hc. discriminate.
      * split.
        -- intros _. exists check. split; [by left|]. split; [|done].
           by exists git_dir.
        -- intros _. exists clone. split; [|done]. right. by left.
Qed.

Lemma bind_inv_return {A B} (m : M A) (k : A → M B) w b w' :
(m ≫= k) w = (Return b, w') →
∃ a w1, m w = (Return a, w1) ∧ k a w1 = (Return b, w').
Proof.
intros Hrun. by apply bind_inv in Hrun as [(e & _ & ?)|?].
Qed.

Lemma with_block_inv {A} enter leave (body : M A) w o w' :
with_block enter leave body w = (o, w') →
∃ w1, body (with_env (enter (env w)) w) = (o, w1) ∧
      w' = with_env (leave (env w) (env w1)) w1.
Proof.
unfold with_block, with_env.
destruct (body _) as [o1 w1] eqn:Hbody. intros [= <- <-]. by exists w1.
Qed.

Lemma info_fetched_refl branch w : info_fetched branch w w.
Proof. exists []. rewrite app_nil_r. split; [done | by left]. Qed.

Lemma info_fetched_trans branch w1 w2 w3 :
info_fetched branch w1 w2 → info_fetched branch w2 w3 →
info_fetched branch w1 w3.
Proof.
intros (new1 & Hnew1 & H1) (new2 & Hnew2 & H2).
exists (new1 ++ new2). split; [by rewrite Hnew2, Hnew1, app_assoc|].
destruct H1 as [Heq1|(Hnone1 & gi & i & Hgi & Hi & Hc & Hout)];
  destruct H2 as [Heq2|(Hnone2 & gi2 & i2 & Hgi2 & Hi2 & Hc2 & Hout2)].
- left. congruence.
- right. split; [congruence|]. exists gi2, i2.
  repeat split; try done. apply elem_of_app. by right.
- right. split; [done|]. exists gi, i.
  repeat split; try done; [congruence | apply elem_of_app; by left].
- congruence.
Qed.

Lemma run_inv_return cmd w i w' :
  run remote cmd w = (Return i, w') →
  command i = cmd ∧ env w' = env w ∧ issued w' = issued w ++ [i].
Proof.
  unfold run. simpl.
  destruct (_ && _); intros [= <- <-]. done.
Qed.

(** With [git_info] present, [_git_info] is a no-op. *)
Lemma _git_info_present branch w :
  is_Some (env_git_info (env w)) →
  call (_git_info remote) branch w
  = (Return (if decide (permitted ["transcript"] (env w))
             then VNone else VBool false), w).
Proof.
  intros Hsome. unfold _git_info. rewrite strict_roles_run. simpl.
  case_decide; [|done].
  unfold mbind, M_bind, get_env. by rewrite bool_decide_eq_true_2.
Qed.

(** A call of [_git_info] that returns. *)
Lemma _git_info_return branch w v w' :
  call (_git_info remote) branch w = (Return v, w') →
  info_fetched branch w w' ∧
  (v = VBool false ∧ w' = w ∧ ¬ permitted ["transcript"] (env w) ∨
   v = VNone ∧ is_Some (env_git_info (env w')) ∧
   permitted ["transcript"] (env w)).
Proof.
  destruct (env_git_info (env w)) as [gi0|] eqn:Hinfo.
  { rewrite _git_info_present by (rewrite Hinfo; by eexists).
    intros [= <- <-]. split; [apply info_fetched_refl|].
    case_decide; [right | left]; repeat split; done. }
  unfold _git_info. rewrite strict_roles_run. simpl list_values.
  case_decide as Hp.
  2:{ intros [= <- <-]. split; [apply info_fetched_refl | by left]. }
  cbv beta iota delta [call def]. intros Hrun.
  apply bind_inv_return in Hrun as (e & w0 & [= <- <-] & Hrun).
  rewrite bool_decide_eq_false_2 in Hrun
    by (rewrite Hinfo; by intros [? ?]).
  apply bind_inv_return in Hrun as (git_dir & w0 & Hattr & Hrun).
  unfold attr in Hattr. destruct (env_git_dir (env w)); [|done].
  injection Hattr as <- <-.
  apply bind_inv_return in Hrun as ([[[rev cf] pc] dc] & w5 & Hcd & Hrun).
  injection Hrun as <- <-.
  apply with_block_inv in Hcd as (w4 & Hbody & ->). unfold hide in Hbody.
  apply bind_inv_return in Hbody as (i1 & w1 & Hr1 & Hbody).
  apply bind_inv_return in Hbody as (i2 & w2 & Hr2 & Hbody).
  apply bind_inv_return in Hbody as (i3 & w3 & Hr3 & Hbody).
  apply bind_inv_return in Hbody as (i4 & w3' & Hr4 & Hbody).
  apply bind_inv_return in Hbody as (i5 & w4' & Hr5 & Hbody).
  injection Hbody as <- <- <- <- <-.
  apply run_inv_return in Hr1 as (_ & He1 & Hi1).
  apply run_inv_return in Hr2 as (Hc2 & He2 & Hi2).
  apply run_inv_return in Hr3 as (_ & He3 & Hi3).
  apply run_inv_return in Hr4 as (_ & He4 & Hi4).
  apply run_inv_return in Hr5 as (_ & He5 & Hi5).
  simpl in *. split.
  - exists [i1; i2; i3; i4; i5]. split.
    { rewrite Hi5, Hi4, Hi3, Hi2, Hi1. by rewrite <- !app_assoc. }
    right. split; [done|]. eexists _, i2. split; [reflexivity|].
    split; [|done]. apply elem_of_cons. right. by left.
  - right. split; [done|]. split; [by eexists|]. done.
Qed.

Lemma info_fetched_settings_host branch h w v w' :
  settings_host h (call (_git_info remote) branch) w = (Return v, w') →
  info_fetched branch w w'.
Proof.
  intros Hrun. apply with_block_inv in Hrun as (w1 & Hrun & ->).
  apply _git_info_return in Hrun as [(new & Hnew & Hinfo) _].
  exists new. split; [done|]. done.
Qed.

Lemma info_fetched_execute_on branch hosts w v w' :
  execute_on (_git_info remote) branch hosts w = (Return v, w') →
  info_fetched branch w w'.
Proof.
  revert w v. induction hosts as [|h hosts IH]; intros w v Hrun.
  - injection Hrun as <- <-. apply info_fetched_refl.
  - simpl in Hrun.
    apply bind_inv_return in Hrun as (v1 & w1 & Hrun1 & Hrun).
    apply bind_inv_return in Hrun as (vs & w2 & Hrun2 & Hrun).
    injection Hrun as <- <-.
    eapply info_fetched_trans.
    + by eapply info_fetched_settings_host.
    + by eapply IH.
Qed.

Lemma info_fetched_execute branch w v w' :
  execute get_hosts (_git_info remote) branch w = (Return v, w') →
  info_fetched branch w w'.
Proof.
  unfold execute. intros Hrun.
  apply bind_inv_return in Hrun as (e & w0 & [= <- <-] & Hrun).
  destruct (get_hosts _ _) as [[|h hosts]|x]; [| |done].
  - apply bind_inv_return in Hrun as (v1 & w1 & Hrun1 & Hrun).
    injection Hrun as <- <-.
    by apply _git_info_return in Hrun1 as [? _].
  - by eapply info_fetched_execute_on.
Qed.

Lemma step_ok_deploy_rest branch : step_ok touch_nothing (deploy_rest remote get_hosts branch).
Proof.
  unfold deploy_rest. step_ok_tac.
  - apply step_ok_deploy_git.
  - apply step_ok_install.
  - apply step_ok_restart.
Qed.

(** How a run of [deploy_def] goes: it raises before it gets to settle
    the revision, and [git_revision] is as it was; or it gets there,
    through the worlds [w1], [w2], [w3], and goes on with [deploy_rest]. *)
Lemma deploy_def_inv branch w o w' :
  call (deploy_def remote get_hosts) branch w = (o, w') →
  (∃ e, o = Throw e ∧ env_git_revision (env w') = env_git_revision (env w)) ∨
  ∃ chosen w1 w2 w3 r1 r2,
    execute get_hosts (_check_git_dir remote) tt w = (Return r1, w1) ∧
    (if truthy branch then branch = Some chosen
     else env_git_branch (env w1) = Some chosen) ∧
    execute get_hosts (_git_info remote) chosen w1 = (Return r2, w2) ∧
    (if truthy (env_git_revision (env w2)) then w3 = w2
     else ∃ gi, env_git_info (env w2) = Some gi ∧
                w3 = with_env (set_git_revision (Some (revision gi)) (env w2)) w2) ∧
    deploy_rest remote get_hosts chosen w3 = (o, w').
Proof.
  cbv beta iota delta [call def deploy_def]. intros Hrun.
  apply bind_inv in Hrun as [(e & Hcheck & ->)|(r1 & w1 & Hcheck & Hrun)].
  { left. exists e. split; [done|].
    destruct (step_ok_execute touch_nothing _ tt
                (step_ok_check_git_dir touch_nothing) w _ w' Hcheck)
      as ((_&_&_&_&_&_&_&_&_&Hrev&_) & _).
    by apply Hrev. }
  destruct (step_ok_execute touch_nothing _ tt
              (step_ok_check_git_dir touch_nothing) w _ w1 Hcheck)
    as ((_&_&_&_&_&_&_&_&_&Hrev1&_) & _).
  apply bind_inv in Hrun as [(e & Hbranch & ->)|(chosen & w1' & Hbranch & Hrun)].
  { left. exists e. split; [done|].
    destruct (truthy branch); [done|]. unfold attr in Hbranch.
    destruct (env_git_branch (env w1)); [done|].
    injection Hbranch as <- <-. by apply Hrev1. }
  assert (w1' = w1 ∧ (if truthy branch then branch = Some chosen
                      else env_git_branch (env w1) = Some chosen)) as [-> Hb].
  { destruct (truthy branch) eqn:Ht.
    - injection Hbranch as <- <-. split; [done|].
      destruct branch; [done | discriminate].
    - unfold attr in Hbranch. destruct (env_git_branch (env w1)); [|done].
      by injection Hbranch as <- <-. }
  apply bind_inv in Hrun as [(e & Hinfo & ->)|(r2 & w2 & Hinfo & Hrun)].
  { left. exists e. split; [done|].
    destruct (step_ok_execute touch_info _ chosen
                (step_ok_git_info touch_info chosen ltac:(done))
                w1 _ w' Hinfo)
      as ((_&_&_&_&_&_&_&_&_&Hrev&_) & _).
    rewrite Hrev by done. by apply Hrev1. }
  destruct (step_ok_execute touch_info _ chosen
              (step_ok_git_info touch_info chosen ltac:(done))
              w1 _ w2 Hinfo)
    as ((_&_&_&_&_&_&_&_&_&Hrev2&_) & _).
  apply bind_inv in Hrun as [(e & [=] & _)|(e & w2' & [= <- <-] & Hrun)].
  apply bind_inv in Hrun as [(e & Hrev & ->)|([] & w3 & Hrev & Hrun)].
  { left. exists e. split; [done|].
    destruct (truthy (env_git_revision (env w2))); [done|].
    apply bind_inv in Hrev as [(e' & Hattr & _)|(gi & w2' & _ & [=])].
    unfold attr in Hattr. destruct (env_git_info (env w2)); [done|].
    injection Hattr as _ <-. rewrite Hrev2 by done. by apply Hrev1. }
  right. exists chosen, w1, w2, w3, r1, r2.
  repeat split; try done.
  destruct (truthy (env_git_revision (env w2))).
  - by injection Hrev as <-.
  - apply bind_inv_return in Hrev as (gi & w2' & Hattr & Hset).
    unfold attr in Hattr. destruct (env_git_info (env w2)) as [gi'|]; [|done].
    injection Hattr as <- <-. injection Hset as <-. by exists gi'.
Qed.

Lemma keeps_revision_step_ok {A} (m : M A) :
step_ok touch_info m → keeps_revision m.
Proof.
intros Hm w o w' Hrun _.
destruct (Hm w o w' Hrun) as ((_&_&_&_&_&_&_&_&_&Hrev&_) & _).
by apply Hrev.
Qed.

Lemma keeps_revision_bind {A B} (m : M A) (k : A → M B) :
keeps_revision m → (∀ a, keeps_revision (k a)) → keeps_revision (m ≫= k).
Proof.
intros Hm Hk w o w' Hrun Ht.
apply bind_inv in Hrun as [(e & Hrun & ->)|(a & w1 & Hrun1 & Hrun2)].
- by apply (Hm w _ w' Hrun).
- pose proof (Hm w _ w1 Hrun1 Ht) as H1.
  rewrite <- H1. apply (Hk a w1 o w' Hrun2). by rewrite H1.
Qed.

Lemma keeps_revision_deploy_def branch :
  keeps_revision (call (deploy_def remote get_hosts) branch).
Proof.
  cbv beta iota delta [call def deploy_def].
  apply keeps_revision_bind.
  { apply keeps_revision_step_ok, step_ok_execute, step_ok_check_git_dir. }
  intros _. apply keeps_revision_bind.
  { apply keeps_revision_step_ok. step_ok_tac. }
  intros chosen. apply keeps_revision_bind.
  { apply keeps_revision_step_ok, step_ok_execute.
    by apply step_ok_git_info. }
  intros _ w o w' Hrun Ht.
  apply bind_inv in Hrun as [(e & [=] & _)|(e & w0 & [= <- <-] & Hrun)].
  rewrite Ht in Hrun.
  assert (Hrest : step_ok touch_info
            (mret tt;; deploy_rest remote get_hosts chosen)).
  { apply step_ok_bind; [apply step_ok_ret|]. intros _.
    apply step_ok_weaken, step_ok_deploy_rest. }
  by apply (keeps_revision_step_ok _ Hrest w o w' Hrun).
Qed.

(** C9: a truthy [env.git_revision], as the [r] task sets it, is still
    there after [deploy], however [deploy] ends.  When it is unset or
    falsy (the empty string of [r:""] included) and [deploy] runs, then
    either [deploy] raises before it gets to settle the revision, or
    [env.git_revision] becomes the [revision] of [env.git_info], which,
    when [_git_info] had to build it, is the output of the [rev-parse]
    of the chosen branch; a [deploy] that returns is in the second
    case. *)
Theorem deploy_git_revision (branch : option string) (w : World)
    (o : outcome value) (w' : World) :
  call (deploy remote get_hosts) branch w = (o, w') →
  (truthy (env_git_revision (env w)) = true →
   env_git_revision (env w') = env_git_revision (env w)) ∧
  (truthy (env_git_revision (env w)) = false →
   return_value w Tdeploy = None →
   ((∃ e, o = Throw e ∧ env_git_revision (env w') = env_git_revision (env w)) ∨
    ∃ gi, env_git_info (env w') = Some gi ∧
          env_git_revision (env w') = Some (revision gi) ∧
          (env_git_info (env w) = None →
           ∃ chosen new i,
             (if truthy branch then branch = Some chosen
              else env_git_branch (env w) = Some chosen) ∧
             issued w' = issued w ++ new ∧ i ∈ new ∧
             command i = "git rev-parse remotes/origin/" +:+ chosen ∧
             stdout i = revision gi)) ∧
   ((∃ v, o = Return v) →
    ∃ gi, env_git_info (env w') = Some gi ∧
          env_git_revision (env w') = Some (revision gi))).
Proof.
  intros Hrun. split.
  - intros Ht.
    apply runs_once_inv in Hrun
      as [(v & _ & _ & ->)|(_ & w1 & Hrun & Henv & _)]; [done|].
    rewrite Henv. by apply (keeps_revision_deploy_def branch w o w1 Hrun).
  - intros Hfalsy Hmemo.
    apply runs_once_inv in Hrun
      as [(v' & Hv & _)|(_ & w4 & Hrun & Henv & _ & Hiss & _)]; [congruence|].
    rewrite Henv, Hiss. clear Henv Hiss w'.
    assert (Hcases :
      (∃ e, o = Throw e ∧ env_git_revision (env w4) = env_git_revision (env w)) ∨
      ∃ gi, env_git_info (env w4) = Some gi ∧
            env_git_revision (env w4) = Some (revision gi) ∧
            (env_git_info (env w) = None →
             ∃ chosen new i,
               (if truthy branch then branch = Some chosen
                else env_git_branch (env w) = Some chosen) ∧
               issued w4 = issued w ++ new ∧ i ∈ new ∧
               command i = "git rev-parse remotes/origin/" +:+ chosen ∧
               stdout i = revision gi)).
    { apply deploy_def_inv in Hrun
        as [?|(chosen & w1 & w2 & w3 & r1 & r2 &
               Hcheck & Hbranch & Hinfo & Hrev & Hrest)]; [by left|].
      right.
      destruct (step_ok_execute touch_nothing _ tt
                  (step_ok_check_git_dir touch_nothing) w _ w1 Hcheck)
        as (Hf1 & _ & _ & new1 & Hnew1 & _).
      destruct (step_ok_execute touch_info _ chosen
                  (step_ok_git_info touch_info chosen ltac:(done))
                  w1 _ w2 Hinfo)
        as (Hf2 & _ & _ & _).
      destruct (step_ok_deploy_rest chosen w3 _ w4 Hrest)
        as (Hf4 & _ & _ & new4 & Hnew4 & _).
      destruct Hf1 as (_&_&_&_&_&_&_&_&Hbr1&Hrev1&Hinfo1).
      destruct Hf2 as (_&_&_&_&_&_&_&_&_&Hrev2&_).
      destruct Hf4 as (_&_&_&_&_&_&_&_&_&Hrev4&Hinfo4).
      rewrite Hrev2, Hrev1, Hfalsy in Hrev by done.
      destruct Hrev as (gi & Hgi & ->). simpl in *.
      exists gi. rewrite Hinfo4, Hrev4 by done. repeat split; try done.
      intros Hnone.
      apply info_fetched_execute in Hinfo as (new2 & Hnew2 & Hfetched).
      destruct Hfetched as [Hsame|(_ & gi' & i & Hgi' & Hi & Hc & Hout)].
      { rewrite Hsame, Hinfo1, Hnone in Hgi by done. discriminate. }
      exists chosen, (new1 ++ new2 ++ new4), i.
      split; [by rewrite <- Hbr1|].
      split; [by rewrite Hnew4, Hnew2, Hnew1, <- !app_assoc|].
      split; [apply elem_of_app; right; apply elem_of_app; by left|].
      split; [done | congruence]. }
    split; [done|]. intros [v ->].
    destruct Hcases as [(e & [=] & _)|(gi & ? & ? & _)]. by exists gi.
Qed.

(** C10: with [env.git_info] already set, a call of [_git_info]
    returns at once ([None] past the guard, [False] when the guard
    skips), issues no remote command and leaves the whole world as it
    was; and after a call that returned, a second call, for any branch,
    returns the same value and changes nothing. *)
Theorem git_info_memoized (branch : string) (w : World) :
  (is_Some (env_git_info (env w)) →
   ∃ v, call (_git_info remote) branch w = (Return v, w) ∧
        (v = VNone ∨ v = VBool false)) ∧
  (∀ v w1 branch',
     call (_git_info remote) branch w = (Return v, w1) →
     call (_git_info remote) branch' w1 = (Return v, w1)).
Proof.
  split.
  - intros Hsome. rewrite _git_info_present by done.
    eexists. split; [reflexivity|]. case_decide; auto.
  - intros v w1 branch' Hrun.
    destruct (step_ok_git_info touch_info branch ltac:(done) w _ w1 Hrun)
      as ((Hhost & Hroledefs & _) & _).
    apply _git_info_return in Hrun
      as [_ [(-> & -> & Hnp)|(-> & Hsome & Hp)]].
    + unfold _git_info. rewrite strict_roles_run. by rewrite decide_False.
    + rewrite _git_info_present by done. rewrite decide_True; [done|].
      unfold permitted in *. by rewrite Hhost, Hroledefs.
Qed.

End Steps.

(** * The [prod] task *)

Lemma elem_of_active_roles roledefs role :
  role ∈ active_roles roledefs
  ↔ ∃ hosts, roledefs !! role = Some hosts ∧ hosts ≠ [].
Proof.
  unfold active_roles. rewrite list_elem_of_fmap. split.
  - intros ([role' hosts] & -> & Hin). apply list_elem_of_filter in Hin as [Hlen Hin].
    apply elem_of_map_to_list in Hin. exists hosts. split; [done|].
    destruct hosts; [simpl in Hlen; lia | done].
  - intros (hosts & Hlook & Hne). exists (role, hosts). split; [done|].
    apply list_elem_of_filter. split.
    + simpl. destruct hosts; [done | simpl; lia].
    + by apply elem_of_map_to_list.
Qed.

Lemma NoDup_active_roles roledefs : NoDup (active_roles roledefs).
Proof.
  unfold active_roles.
  eapply NoDup_fmap_fst.
  - intros role hs1 hs2 H1 H2.
    apply list_elem_of_filter in H1 as [_ H1].
    apply list_elem_of_filter in H2 as [_ H2].
    apply elem_of_map_to_list in H1, H2. congruence.
  - apply NoDup_filter, NoDup_map_to_list.
Qed.

(** The first call of [prod]. *)
Lemma prod_first_call w :
  return_value w Tprod = None →
  ∃ w', call prod tt w = (Return VNone, w') ∧ prod_context w' ∧
        return_value w' Tprod = Some VNone.
Proof.
  intros Hmemo. unfold prod. rewrite runs_once_run, Hmemo.
  eexists. split; [reflexivity|]. split; [|done].
  repeat split.
Qed.

Lemma prod_context_frame w w' :
  prod_context w → SERVERS w' = SERVERS w →
  env_environment (env w') = env_environment (env w) →
  env_git_branch (env w') = env_git_branch (env w) →
  env_roledefs (env w') = env_roledefs (env w) →
  env_roles (env w') = env_roles (env w) →
  prod_context w'.
Proof.
  intros (He & Hb & Hrd & Hr) Hs He' Hb' Hrd' Hr'.
  unfold prod_context. rewrite He', Hb', Hrd', Hr'. repeat split; try done.
  rewrite _get_roledefs_run in *. rewrite Hs. by injection Hrd as ->.
Qed.

(** Once [prod] has run, the context stays as it left it. *)
Lemma reachable_prod_context remote get_hosts w :
  reachable remote get_hosts w →
  return_value w Tprod = None ∨
  (return_value w Tprod = Some VNone ∧ prod_context w).
Proof.
  induction 1 as [servers|w h _ IH|w o w' _ IH Hrun|w rev o w' _ IH Hrun
                 |w branch o w' _ IH Hrun].
  - by left.
  - destruct IH as [?|[? Hctx]]; [by left|]. right. split; [done|].
    by apply (prod_context_frame w).
  - destruct IH as [Hnone|[Hsome Hctx]].
    + destruct (prod_first_call w Hnone) as (w1 & Hrun1 & Hctx & Hmemo).
      rewrite Hrun in Hrun1. injection Hrun1 as -> ->. by right.
    + unfold prod in Hrun. rewrite runs_once_run, Hsome in Hrun.
      injection Hrun as <- <-. by right.
  - apply runs_once_inv in Hrun
      as [(v & _ & _ & ->)|(_ & w1 & Hrun & Henv & Hs & _ & Hother & _)]; [done|].
    injection Hrun as <- <-.
    rewrite (Hother Tprod) by done. simpl.
    destruct IH as [?|[? Hctx]]; [by left|]. right. split; [done|].
    apply (prod_context_frame w); try done; by rewrite Henv.
  - apply runs_once_inv in Hrun
      as [(v & _ & _ & ->)|(_ & w1 & Hrun & Henv & Hs & _ & Hother & _)]; [done|].
    destruct (step_ok_deploy_def remote get_hosts branch w o w1 Hrun)
      as ((_ & Hrd & Hr & _ & _ & _ & _ & He & Hb & _) & Hs1 & Hmemo & _).
    rewrite (Hother Tprod), Hmemo by done.
    destruct IH as [?|[? Hctx]]; [by left|]. right. split; [done|].
    apply (prod_context_frame w); try done; rewrite ?Henv; congruence.
Qed.

(** C7: wherever a [fab] run stands, after a call of the [prod] task the
    context has environment ["prod"] and git branch ["master"], its
    [roledefs] are what [_get_roledefs("prod")] returns, and its roles
    are, each once, the keys of [roledefs] whose sequence has a host. *)
Theorem prod_sets_context
    (remote : list Issued → option string → list string → string → bool * string)
    (get_hosts : Env → list string → outcome (list string)) (w : World) :
  reachable remote get_hosts w →
  ∃ w', call prod tt w = (Return VNone, w') ∧
        env_environment (env w') = Some "prod" ∧
        env_git_branch (env w') = Some "master" ∧
        _get_roledefs "prod" w' = (Return (env_roledefs (env w')), w') ∧
        (∀ role, role ∈ env_roles (env w') ↔
                 ∃ hosts, env_roledefs (env w') !! role = Some hosts ∧ hosts ≠ []) ∧
        NoDup (env_roles (env w')).
Proof.
  intros Hreach.
  assert (∃ w', call prod tt w = (Return VNone, w') ∧ prod_context w')
    as (w' & Hrun & He & Hb & Hrd & Hr).
  { destruct (reachable_prod_context _ _ _ Hreach) as [Hnone|[Hsome Hctx]].
    - destruct (prod_first_call w Hnone) as (w' & ? & ? & _). by exists w'.
    - exists w. split; [|done]. unfold prod. by rewrite runs_once_run, Hsome. }
  exists w'. repeat split; try done.
  - rewrite Hr. apply elem_of_active_roles.
  - rewrite Hr. apply elem_of_active_roles.
  - rewrite Hr. apply NoDup_active_roles.
Qed.

Lemma prod_sets_context_witness :
  ∃ w', call prod tt initial_world = (Return VNone, w') ∧
        env_environment (env w') = Some "prod" ∧
        env_git_branch (env w') = Some "master" ∧
        _get_roledefs "prod" w' = (Return (env_roledefs (env w')), w') ∧
        (∀ role, role ∈ env_roles (env w') ↔
                 ∃ hosts, env_roledefs (env w') !! role = Some hosts ∧ hosts ≠ []) ∧
        NoDup (env_roles (env w')).
Proof.
  apply (prod_sets_context remote_ok fabric_hosts initial_world).
  apply (reach_start remote_ok fabric_hosts (SERVERS initial_world)).
Defined.

Lemma on_prod_host_permitted : permitted ["transcript"] (env on_prod_host).
Proof.
  apply Exists_cons_hd. vm_compute. apply elem_of_cons. by left.
Defined.

Lemma only_dir_check_is_warn_only_witness :
  (∃ check fetch msg,
     issued (call (deploy remote_no_fetch fabric_hosts) None after_prod).2
     = issued after_prod ++ [check; fetch] ∧
     failed fetch = true ∧
     command fetch = "git fetch -q origin +master:remotes/origin/master" ∧
     (call (deploy remote_no_fetch fabric_hosts) None after_prod).1
     = Throw (SystemExit msg)) ∧
  (∃ check clone,
     issued (call (_check_git_dir remote_no_git_dir) tt on_prod_host).2
     = issued on_prod_host ++ [check; clone] ∧
     command check = "test -d /opt/transcript/transcript-editor" ∧
     warned check = true ∧ failed check = true ∧
     command clone = "git clone " +:+ REPO ∧
     (call (_check_git_dir remote_no_git_dir) tt on_prod_host).1
     = Return VNone) ∧
  (∃ check clone msg,
     issued (call (_check_git_dir remote_no_clone) tt on_prod_host).2
     = issued on_prod_host ++ [check; clone] ∧
     warned check = true ∧ failed check = true ∧
     command clone = "git clone " +:+ REPO ∧ failed clone = true ∧
     (call (_check_git_dir remote_no_clone) tt on_prod_host).1
     = Throw (SystemExit msg)) ∧
  (∃ check,
     issued (call (_check_git_dir remote_ok) tt on_prod_host).2
     = issued on_prod_host ++ [check] ∧
     command check = "test -d /opt/transcript/transcript-editor" ∧
     warned check = true ∧ failed check = false ∧
     (call (_check_git_dir remote_ok) tt on_prod_host).1 = Return VNone) ∧
  (∃ new,
     issued (call (deploy remote_no_git_dir fabric_hosts) None after_prod).2
     = issued after_prod ++ new ∧
     (∀ i, i ∈ new → warned i = true → dir_check (env after_prod) i) ∧
     (∀ pre i post, new = pre ++ i :: post →
        failed i = true → ¬ dir_check (env after_prod) i →
        post = [] ∧
        ∃ msg, (call (deploy remote_no_git_dir fabric_hosts) None after_prod).1
               = Throw (SystemExit msg))) ∧
  (∃ new,
     issued (call (_check_git_dir remote_no_git_dir) tt on_prod_host).2
     = issued on_prod_host ++ new ∧
     (∀ i, i ∈ new → dir_check (env on_prod_host) i → warned i = true) ∧
     ((∃ i, i ∈ new ∧ command i = "git clone " +:+ REPO) ↔
      (∃ i, i ∈ new ∧ dir_check (env on_prod_host) i ∧ failed i = true))).
Proof.
  assert (Hdir : env_git_dir (env on_prod_host)
                 = Some "/opt/transcript/transcript-editor")
    by (vm_compute; reflexivity).
  assert (Hwarn : env_warn_only (env on_prod_host) = false)
    by (vm_compute; reflexivity).
  assert (Hstart : env_warn_only (env after_prod) = false)
    by (vm_compute; reflexivity).
  split; [|split; [|split; [|split; [|split]]]].
  - destruct (proj1 (only_dir_check_is_warn_only remote_no_fetch fabric_hosts)
                None after_prod _ _ Hstart (surjective_pairing _))
      as (new & Hnew & _ & Hfatal).
    assert (Hlog : ∃ check fetch,
              issued (call (deploy remote_no_fetch fabric_hosts) None
                        after_prod).2
              = issued after_prod ++ [check; fetch] ∧
              failed fetch = true ∧
              command fetch
              = "git fetch -q origin +master:remotes/origin/master")
      by (vm_compute; eexists _, _; split; [reflexivity|]; split; reflexivity).
    destruct Hlog as (check & fetch & Hlog & Hfailed & Hcmd).
    rewrite Hlog in Hnew. apply app_inv_head in Hnew.
    destruct (Hfatal [check] fetch [] (eq_sym Hnew) Hfailed) as (_ & msg & Hmsg).
    + intros (git_dir & _ & Hc). rewrite Hcmd in Hc. discriminate.
    + exists check, fetch, msg. split; [exact Hlog|]. split; [exact Hfailed|].
      split; [exact Hcmd | exact Hmsg].
  - destruct (proj2 (proj2 (only_dir_check_is_warn_only remote_no_git_dir
                              fabric_hosts))
                _ on_prod_host _ _ on_prod_host_permitted Hdir
                (surjective_pairing _))
      as (check & rest & Hnew & Hcmd & Hwarned & Hfailed & _ & Hmissing).
    destruct (Hmissing Hfailed) as (clone & -> & Hclone & _ & Hret & _).
    exists check, clone. split; [exact Hnew|]. split; [exact Hcmd|].
    split; [exact Hwarned|]. split; [exact Hfailed|]. split; [exact Hclone|].
    apply Hret.
    assert (Hlog : failed <$> issued (call (_check_git_dir remote_no_git_dir) tt
                                        on_prod_host).2
                   = [true; false]) by (vm_compute; reflexivity).
    rewrite Hnew in Hlog. rewrite fmap_app in Hlog.
    assert (Hbefore : issued on_prod_host = []) by (vm_compute; reflexivity).
    rewrite Hbefore in Hlog. by injection Hlog as _ Hlog.
  - destruct (proj2 (proj2 (only_dir_check_is_warn_only remote_no_clone
                              fabric_hosts))
                _ on_prod_host _ _ on_prod_host_permitted Hdir
                (surjective_pairing _))
      as (check & rest & Hnew & Hcmd & Hwarned & Hfailed & _ & Hmissing).
    destruct (Hmissing Hfailed) as (clone & -> & Hclone & _ & _ & Habort).
    assert (Hlog : failed <$> issued (call (_check_git_dir remote_no_clone) tt
                                        on_prod_host).2
                   = [true; true]) by (vm_compute; reflexivity).
    rewrite Hnew in Hlog. rewrite fmap_app in Hlog.
    assert (Hbefore : issued on_prod_host = []) by (vm_compute; reflexivity).
    rewrite Hbefore in Hlog. injection Hlog as _ Hbad.
    destruct (Habort Hbad Hwarn) as (msg & Hmsg).
    exists check, clone, msg. split; [exact Hnew|].
    split; [exact Hwarned|]. split; [exact Hfailed|]. split; [exact Hclone|].
    split; [exact Hbad | exact Hmsg].
  - destruct (proj2 (proj2 (only_dir_check_is_warn_only remote_ok
                              fabric_hosts))
                _ on_prod_host _ _ on_prod_host_permitted Hdir
                (surjective_pairing _))
      as (check & rest & Hnew & Hcmd & Hwarned & Hfailed & Hpresent & _).
    destruct (Hpresent Hfailed) as (-> & Hret).
    exists check. split; [exact Hnew|]. split; [exact Hcmd|].
    split; [exact Hwarned|]. split; [exact Hfailed | exact Hret].
  - apply (proj1 (only_dir_check_is_warn_only remote_no_git_dir fabric_hosts)
             None after_prod _ _ Hstart (surjective_pairing _)).
  - apply (proj1 (proj2 (only_dir_check_is_warn_only remote_no_git_dir
                           fabric_hosts))
             on_prod_host _ _ (surjective_pairing _)).
Defined.

Lemma deploy_git_revision_witness :
  env_git_revision (env (call (deploy remote_ok fabric_hosts) None after_r).2)
  = Some "v1.0" ∧
  ∃ gi, env_git_info (env deployed) = Some gi ∧
        env_git_revision (env deployed) = Some (revision gi).
Proof.
  split.
  - apply (proj1 (deploy_git_revision remote_ok fabric_hosts None after_r _ _
                    (surjective_pairing _))).
    reflexivity.
  - apply (proj2 (deploy_git_revision remote_ok fabric_hosts None after_prod _ _
                    (surjective_pairing _))).
    + reflexivity.
    + reflexivity.
    + exists VNone. vm_compute. reflexivity.
Defined.

Lemma git_info_memoized_witness :
  permitted ["transcript"] (env on_prod_host_deployed) ∧
  is_Some (env_git_info (env on_prod_host_deployed)) ∧
  length (issued on_prod_host_deployed) = 15 ∧
  call (_git_info remote_ok) "master" on_prod_host_deployed
  = (Return VNone, on_prod_host_deployed) ∧
  length (issued (call (_git_info remote_ok) "master" on_prod_host).2) = 5 ∧
  call (_git_info remote_ok) "dev"
    (call (_git_info remote_ok) "master" on_prod_host).2
  = (Return VNone, (call (_git_info remote_ok) "master" on_prod_host).2).
Proof.
  assert (Hset : is_Some (env_git_info (env on_prod_host_deployed)))
    by (vm_compute; eexists; reflexivity).
  split.
  { apply Exists_cons_hd. vm_compute. apply elem_of_cons. left. reflexivity. }
  split; [exact Hset|].
  split; [vm_compute; reflexivity|].
  split.
  - destruct (proj1 (git_info_memoized remote_ok "master" on_prod_host_deployed)
                Hset) as (v & Hrun & _).
    assert (Hv : (call (_git_info remote_ok) "master" on_prod_host_deployed).1
                 = Return VNone) by (vm_compute; reflexivity).
    rewrite Hrun in Hv. simpl in Hv. injection Hv as ->. exact Hrun.
  - split; [vm_compute; reflexivity|].
    assert (Hv : (call (_git_info remote_ok) "master" on_prod_host).1
                 = Return VNone) by (vm_compute; reflexivity).
    apply (proj2 (git_info_memoized remote_ok "master" on_prod_host)
             VNone _ "dev").
    rewrite <- Hv. apply surjective_pairing.
Defined.

(** * Further properties of the tasks *)

Lemma hoare_conseq {A} (Pre Pre' : Env → Prop) (P P' : Issued → Prop)
    (Post Post' : A → Env → Prop) (m : M A) :
  hoare Pre' P' Post' m →
  (∀ e, Pre e → Pre' e) → (∀ i, P' i → P i) →
  (∀ a e, Post' a e → Post a e) →
  hoare Pre P Post m.
Proof.
  intros Hm HPre HP HPost w o w' Hw Hrun.
  destruct (Hm w o w' (HPre _ Hw) Hrun) as [(new & Hnew & Hall) Hret]. split.
  - exists new. split; [done|]. eapply Forall_impl; [exact Hall | exact HP].
  - intros a Ho. by apply HPost, Hret.
Qed.

Lemma hoare_ret {A} (Pre : Env → Prop) P (Post : A → Env → Prop) (a : A) :
  (∀ e, Pre e → Post a e) → hoare Pre P Post (mret a).
Proof.
  intros HPost w o w' Hw [= <- <-]. split.
  - exists []. by rewrite app_nil_r.
  - intros a' [= <-]. by apply HPost.
Qed.

Lemma hoare_raise {A} Pre P (Post : A → Env → Prop) e :
  hoare Pre P Post (raise e).
Proof.
  intros w o w' Hw [= <- <-]. split; [|done].
  exists []. by rewrite app_nil_r.
Qed.

Lemma hoare_get_env (Pre : Env → Prop) P (Post : Env → Env → Prop) :
  (∀ e, Pre e → Post e e) → hoare Pre P Post get_env.
Proof.
  intros HPost w o w' Hw [= <- <-]. split.
  - exists []. by rewrite app_nil_r.
  - intros a' [= <-]. by apply HPost.
Qed.

Lemma hoare_attr {A} (Pre : Env → Prop) P (Post : A → Env → Prop) name
    (field : Env → option A) :
  (∀ e a, Pre e → field e = Some a → Post a e) →
  hoare Pre P Post (attr name field).
Proof.
  intros HPost w o w' Hw. unfold attr.
  destruct (field (env w)) as [a|] eqn:Hfield; intros [= <- <-].
  - split; [exists []; by rewrite app_nil_r|].
    intros a' [= <-]. by apply HPost.
  - split; [exists []; by rewrite app_nil_r | done].
Qed.

Lemma hoare_modify_env (Pre : Env → Prop) P (Post : unit → Env → Prop) f :
  (∀ e, Pre e → Post tt (f e)) → hoare Pre P Post (modify_env f).
Proof.
  intros HPost w o w' Hw [= <- <-]. split.
  - exists []. by rewrite app_nil_r.
  - intros a' [= <-]. by apply HPost.
Qed.

Lemma hoare_bind {A B} (Pre : Env → Prop) P (Mid : A → Env → Prop)
    (Post : B → Env → Prop) (m : M A) (k : A → M B) :
  hoare Pre P Mid m → (∀ a, hoare (Mid a) P Post (k a)) →
  hoare Pre P Post (m ≫= k).
Proof.
  intros Hm Hk w o w' Hw Hrun.
  apply bind_inv in Hrun as [(e & Hrun & ->)|(a & w1 & Hrun1 & Hrun2)].
  - destruct (Hm w _ w' Hw Hrun) as [Hlog _]. by split.
  - destruct (Hm w _ w1 Hw Hrun1) as [(new1 & Hnew1 & Hall1) Hmid].
    destruct (Hk a w1 o w' (Hmid a eq_refl) Hrun2)
      as [(new2 & Hnew2 & Hall2) Hpost].
    split; [|done]. exists (new1 ++ new2).
    split; [by rewrite Hnew2, Hnew1, app_assoc | by apply Forall_app].
Qed.

Lemma hoare_with_block {A} (Pre Pre' : Env → Prop) P
    (Post Post' : A → Env → Prop) enter leave (body : M A) :
  hoare Pre' P Post' body →
  (∀ e, Pre e → Pre' (enter e)) →
  (∀ e a e1, Pre e → Post' a e1 → Post a (leave e e1)) →
  hoare Pre P Post (with_block enter leave body).
Proof.
  intros Hbody Henter Hleave w o w' Hw Hrun.
  apply with_block_inv in Hrun as (w1 & Hrun & ->).
  destruct (Hbody (with_env (enter (env w)) w) _ _ (Henter _ Hw) Hrun)
    as [Hlog Hpost].
  split; [done|].
  intros a Ho. simpl. by eapply Hleave, Hpost.
Qed.

(** The blocks of the fabfile keep an invariant that the key they set has
    no part in. *)
Lemma hoare_cd {A} (I : Env → Prop) P path (body : M A) :
  (∀ e x, I e → I (set_cwd x e)) →
  hoare I P (λ _, I) body → hoare I P (λ _, I) (cd path body).
Proof.
  intros Hfree Hbody.
  eapply hoare_with_block; [exact Hbody| |]; simpl; eauto.
Qed.

Lemma hoare_settings_warn_only {A} (I : Env → Prop) P (Post : A → Env → Prop)
    b (body : M A) :
  (∀ e x, I e → I (set_warn_only x e)) →
  (∀ a e x, Post a e → Post a (set_warn_only x e)) →
  hoare I P Post body → hoare I P Post (settings_warn_only b body).
Proof.
  intros Hfree Hpost Hbody.
  eapply hoare_with_block; [exact Hbody| |]; simpl; eauto.
Qed.

Lemma hoare_settings_host {A} (I : Env → Prop) P h (body : M A) :
  (∀ e x, I e → I (set_host x e)) →
  hoare I P (λ _, I) body → hoare I P (λ _, I) (settings_host h body).
Proof.
  intros Hfree Hbody.
  eapply hoare_with_block; [exact Hbody| |]; simpl; eauto.
Qed.

(** The guard: the wrapped call may count on the permission. *)
Lemma hoare_strict_roles {Args} (Pre : Env → Prop) P (Post : value → Env → Prop)
    role_list (func : Callable Args) args :
  hoare (λ e, Pre e ∧ permitted (list_values role_list) e) P Post
        (call func args) →
  (∀ e, Pre e → Post (VBool false) e) →
  hoare Pre P Post (call (strict_roles role_list func) args).
Proof.
  intros Hfunc Hskip w o w' Hw. rewrite strict_roles_run.
  case_decide as Hp.
  - by apply Hfunc.
  - by apply (hoare_ret Pre P Post (VBool false) Hskip w o w').
Qed.

Lemma append_inj_l (prefix_ y z : string) :
  prefix_ +:+ y = prefix_ +:+ z → y = z.
Proof.
  induction prefix_ as [|c prefix_ IH]; [done|].
  intros [= Heq]. by apply IH.
Qed.

Lemma bind_assoc {A B C} (m : M A) (k : A → M B) (f : B → M C) w :
  ((m ≫= k) ≫= f) w = (m ≫= (λ a, k a ≫= f)) w.
Proof. unfold mbind, M_bind. by destruct (m w) as [[a|e] w1]. Qed.

Lemma bind_ext {A B} (m : M A) (k k' : A → M B) w :
  (∀ a w1, k a w1 = k' a w1) → (m ≫= k) w = (m ≫= k') w.
Proof.
  intros Hk. unfold mbind, M_bind. destruct (m w) as [[a|e] w1]; [|done].
  apply Hk.
Qed.

(** A guard keeps what the guarded call keeps. *)
Lemma hoare_guarded {Args} (I : Env → Prop) P role_list (func : Callable Args)
    args :
  hoare I P (λ _, I) (call func args) →
  hoare I P (λ _, I) (call (strict_roles role_list func) args).
Proof.
  intros Hfunc. apply hoare_strict_roles; [|done].
  eapply hoare_conseq; [exact Hfunc| | |]; simpl; try done. by intros e [? _].
Qed.

Lemma Env_eq (e e' : Env) :
  env_frame touch_nothing e e' → e' = e.
Proof.
  destruct e, e'. unfold env_frame. simpl.
  intros (?&?&?&?&?&?&?&?&?&Hr&Hi).
  specialize (Hr ltac:(done)). specialize (Hi eq_refl). by subst.
Qed.

Lemma issues_ret {A} (Pre : Env → Prop) ds (a : A) : issues Pre ds [] (mret a).
Proof.
  intros w o w' _ [= <- <-]. split; [done|]. exists [].
  rewrite app_nil_r. repeat split; done.
Qed.

Lemma issues_bind {A B} (Pre : Env → Prop) ds c1 c2 (m : M A) (k : A → M B) :
  issues Pre ds c1 m → (∀ a, issues Pre ds c2 (k a)) →
  issues Pre ds (c1 ++ c2) (m ≫= k).
Proof.
  intros Hm Hk w o w' Hw Hrun.
  apply bind_inv in Hrun as [(e & Hrun & ->)|(a & w1 & Hrun1 & Hrun2)].
  - destruct (Hm w _ w' Hw Hrun) as (Henv & new & Hnew & Hall & Hpre & _).
    split; [done|]. exists new. repeat split; try done.
    by apply prefix_app_r.
  - destruct (Hm w _ w1 Hw Hrun1) as (Henv1 & new1 & Hnew1 & Hall1 & _ & Hfull).
    assert (Hw1 : Pre (env w1)) by by rewrite Henv1.
    destruct (Hk a w1 o w' Hw1 Hrun2)
      as (Henv2 & new2 & Hnew2 & Hall2 & Hpre2 & Hfull2).
    split; [congruence|]. exists (new1 ++ new2).
    split; [by rewrite Hnew2, Hnew1, app_assoc|].
    rewrite Henv1 in Hall2. rewrite fmap_app, (Hfull a eq_refl).
    repeat split.
    + by apply Forall_app.
    + by apply prefix_app.
    + intros b Ho. by rewrite (Hfull2 b Ho).
Qed.

(** Reading a key that the context is known to hold issues nothing. *)
Lemma issues_attr {A B} (Pre : Env → Prop) ds cmds name
    (field : Env → option A) (a : A) (k : A → M B) :
  (∀ e, Pre e → field e = Some a) →
  issues Pre ds cmds (k a) →
  issues Pre ds cmds (attr name field ≫= k).
Proof.
  intros Hfield Hk w o w' Hw Hrun.
  unfold mbind, M_bind, attr in Hrun. rewrite (Hfield _ Hw) in Hrun.
  by apply Hk.
Qed.

Lemma issues_cd {A} (Pre : Env → Prop) path cmds (body : M A) :
  (∀ e x, Pre e → Pre (set_cwd x e)) →
  issues Pre [] cmds body → issues Pre [path] cmds (cd path body).
Proof.
  intros Hfree Hbody w o w' Hw Hrun.
  apply with_block_inv in Hrun as (w1 & Hrun & ->).
  destruct (Hbody (with_env (set_cwd (env_cwd (env w) ++ [path]) (env w)) w)
              _ _ (Hfree _ _ Hw) Hrun)
    as (Henv & new & Hnew & Hall & Hpre & Hfull).
  simpl in *. split.
  - rewrite Henv. by destruct (env w).
  - exists new. repeat split; try done.
    eapply Forall_impl; [exact Hall|]. simpl. intros i [? Hdirs].
    split; [done|]. by rewrite app_nil_r in Hdirs.
Qed.

Lemma issues_strict_roles {Args} (Pre : Env → Prop) ds cmds role_list
    (func : Callable Args) args :
  issues Pre ds cmds (call func args) →
  issues (λ e, Pre e ∧ permitted (list_values role_list) e) ds cmds
         (call (strict_roles role_list func) args).
Proof.
  intros Hfunc w o w' [Hw Hp]. rewrite strict_roles_run, decide_True by done.
  by apply Hfunc.
Qed.

Section Commands.

Variable remote :
  ∀ (history : list Issued) (host : option string) (dirs : list string)
    (cmd : string), bool * string.
Variable get_hosts : Env → list string → outcome (list string).

Lemma hoare_run (Pre : Env → Prop) P (Post : Issued → Env → Prop) cmd :
  (∀ e i, Pre e → on_host i = env_host e → in_dirs i = env_cwd e →
          command i = cmd → warned i = env_warn_only e → P i ∧ Post i e) →
  hoare Pre P Post (run remote cmd).
Proof.
  intros Hcmd w o w' Hw. unfold run. simpl.
  match goal with
  | |- context [issued w ++ [?i]] =>
      destruct (Hcmd (env w) i Hw) as [HP HPost]; try done
  end.
  destruct (_ && _); intros [= <- <-]; simpl.
  - split; [|done]. eexists. split; [done|]. by constructor.
  - split; [eexists; split; [done|]; by constructor|].
    by intros a [= <-].
Qed.

Lemma hoare_execute_on {Args} (I : Env → Prop) P (task_ : Callable Args)
    args hosts :
  (∀ e x, I e → I (set_host x e)) →
  hoare I P (λ _, I) (call task_ args) →
  hoare I P (λ _, I) (execute_on task_ args hosts).
Proof.
  intros Hfree Htask. induction hosts as [|h hosts IH]; simpl.
  - by apply hoare_ret.
  - eapply (hoare_bind I P (λ _, I)); [by apply hoare_settings_host|].
    intros v. eapply (hoare_bind I P (λ _, I)); [done|].
    intros results. by apply hoare_ret.
Qed.

Lemma hoare_execute {Args} (I : Env → Prop) P (task_ : Callable Args) args :
  (∀ e x, I e → I (set_host x e)) →
  hoare I P (λ _, I) (call task_ args) →
  hoare I P (λ _, I) (execute get_hosts task_ args).
Proof.
  intros Hfree Htask. unfold execute.
  eapply (hoare_bind I P (λ _ e, I e)); [by apply hoare_get_env|]. intros e.
  destruct (get_hosts e _) as [[|h hosts]|x].
  - eapply (hoare_bind I P (λ _, I)); [done|]. intros v. by apply hoare_ret.
  - by apply hoare_execute_on.
  - apply hoare_raise.
Qed.

Ltac hoare_inv I P :=
  repeat (
    lazymatch goal with
    | |- hoare _ _ _ (call _ _) => fail
    | |- hoare _ _ _ _ => idtac
    | _ => fail
    end;
    first
    [ apply hoare_ret
    | apply hoare_raise
    | apply hoare_get_env
    | apply hoare_attr
    | apply hoare_modify_env
    | apply hoare_execute
    | apply hoare_cd; unfold hide
    | apply hoare_settings_warn_only
    | eapply (hoare_bind I P (λ _, I)); [|intros ?]
    | match goal with
      | |- hoare _ _ _ (if ?b then _ else _) => destruct b
      | |- hoare _ _ _ (let '(_, _) := ?p in _) => destruct p
      end ]).

Ltac on_role_host_side :=
  unfold on_role_host, issued_on; simpl; intros;
  repeat match goal with
         | H : _ ∧ _ |- _ => destruct H
         | H : on_host _ = _ |- _ => rewrite H
         end;
  repeat split; auto.

(** Under the guard, the body of a deploy task works on the permitted
    host. *)
Lemma guarded_on_role_host {Args} rd (func : Callable Args) args :
  hoare (on_role_host rd) (issued_on rd) (λ _, on_role_host rd)
        (call func args) →
  hoare (λ e, env_roledefs e = rd) (issued_on rd)
        (λ _ e, env_roledefs e = rd)
        (call (strict_roles (Names ["transcript"]) func) args).
Proof.
  intros Hfunc. apply hoare_strict_roles; [|done].
  eapply hoare_conseq; [exact Hfunc| | |]; simpl.
  - intros e [Hrd Hp]. split; [done|].
    apply Exists_cons in Hp as [Hp|Hp]; [|by apply Exists_nil in Hp].
    unfold transcript_hosts. by rewrite <- Hrd.
  - done.
  - by intros _ e [? _].
Qed.

Lemma on_role_host_check_git_dir rd :
  hoare (λ e, env_roledefs e = rd) (issued_on rd) (λ _ e, env_roledefs e = rd)
        (call (_check_git_dir remote) tt).
Proof.
  apply guarded_on_role_host. cbv beta iota delta [call def].
  hoare_inv (on_role_host rd) (issued_on rd);
    try apply hoare_run; on_role_host_side.
Qed.

Lemma on_role_host_deploy_git rd branch :
  hoare (λ e, env_roledefs e = rd) (issued_on rd) (λ _ e, env_roledefs e = rd)
        (call (_deploy_git remote) branch).
Proof.
  apply guarded_on_role_host. cbv beta iota delta [call def].
  hoare_inv (on_role_host rd) (issued_on rd);
    try apply hoare_run; on_role_host_side.
Qed.

Lemma on_role_host_git_info rd branch :
  hoare (λ e, env_roledefs e = rd) (issued_on rd) (λ _ e, env_roledefs e = rd)
        (call (_git_info remote) branch).
Proof.
  apply guarded_on_role_host. cbv beta iota delta [call def].
  hoare_inv (on_role_host rd) (issued_on rd);
    try apply hoare_run; on_role_host_side.
Qed.

Lemma on_role_host_install rd :
  hoare (λ e, env_roledefs e = rd) (issued_on rd) (λ _ e, env_roledefs e = rd)
        (call (_install remote) tt).
Proof.
  apply guarded_on_role_host. cbv beta iota delta [call def].
  hoare_inv (on_role_host rd) (issued_on rd);
    try apply hoare_run; on_role_host_side.
Qed.

Lemma on_role_host_restart rd :
  hoare (λ e, env_roledefs e = rd) (issued_on rd) (λ _ e, env_roledefs e = rd)
        (call (_restart remote) tt).
Proof.
  apply guarded_on_role_host. cbv beta iota delta [call def].
  hoare_inv (on_role_host rd) (issued_on rd);
    try apply hoare_run; on_role_host_side.
Qed.

Lemma on_role_host_deploy_def rd branch :
  hoare (λ e, env_roledefs e = rd) (issued_on rd) (λ _ e, env_roledefs e = rd)
        (call (deploy_def remote get_hosts) branch).
Proof.
  cbv beta iota delta [call def deploy_def].
  hoare_inv (λ e, env_roledefs e = rd) (issued_on rd); try done.
  - apply on_role_host_check_git_dir.
  - apply on_role_host_git_info.
  - apply on_role_host_deploy_git.
  - apply on_role_host_install.
  - apply on_role_host_restart.
Qed.

(** X1: every remote command that [deploy] issues runs on a host that
    [env.roledefs] lists under the role ["transcript"], whatever hosts the
    dispatcher calls the steps for; so with no host under that role
    [deploy] issues no command at all. *)
Theorem deploy_commands_on_role_hosts (branch : option string) (w : World)
    (o : outcome value) (w' : World) :
  call (deploy remote get_hosts) branch w = (o, w') →
  ∃ new, issued w' = issued w ++ new ∧
    (∀ i, i ∈ new →
          ∃ h, on_host i = Some h ∧
               h ∈ default [] (env_roledefs (env w) !! "transcript")) ∧
    (default [] (env_roledefs (env w) !! "transcript") = [] → new = []).
Proof.
  intros Hrun.
  assert (∃ new, issued w' = issued w ++ new ∧
                 Forall (issued_on (env_roledefs (env w))) new)
    as (new & Hnew & Hall).
  { apply runs_once_inv in Hrun
      as [(v & _ & _ & ->)|(_ & w1 & Hrun & _ & _ & Hiss & _)].
    - exists []. by rewrite app_nil_r.
    - rewrite Hiss.
      by destruct (on_role_host_deploy_def (env_roledefs (env w)) branch
                     w o w1 eq_refl Hrun) as [? _]. }
  exists new. split; [done|].
  assert (Hhosts : ∀ i, i ∈ new →
            ∃ h, on_host i = Some h ∧
                 h ∈ default [] (env_roledefs (env w) !! "transcript")).
  { intros i Hi. apply (proj1 (Forall_forall _ _) Hall) in Hi.
    unfold issued_on, transcript_hosts in Hi.
    destruct (on_host i) as [h|]; [by exists h | done]. }
  split; [done|]. intros Hnone.
  destruct new as [|i new]; [done|].
  destruct (Hhosts i) as (h & _ & Hh); [by left|].
  rewrite Hnone in Hh. by apply elem_of_nil in Hh.
Qed.

(** X2: however [deploy] ends, an abort included, it leaves the context
    as it was up to [git_info] and [git_revision]: the current host, the
    directory and the warn-only flag are put back, [roledefs], [roles],
    [user], [git_dir], [environment] and [git_branch] are not touched;
    the registry and the memos of [prod] and [r] stay, and the log keeps
    its earlier commands. *)
Theorem deploy_restores_context (branch : option string) (w : World)
    (o : outcome value) (w' : World) :
  call (deploy remote get_hosts) branch w = (o, w') →
  env_host (env w') = env_host (env w) ∧
  env_cwd (env w') = env_cwd (env w) ∧
  env_warn_only (env w') = env_warn_only (env w) ∧
  env_roledefs (env w') = env_roledefs (env w) ∧
  env_roles (env w') = env_roles (env w) ∧
  env_user (env w') = env_user (env w) ∧
  env_git_dir (env w') = env_git_dir (env w) ∧
  env_environment (env w') = env_environment (env w) ∧
  env_git_branch (env w') = env_git_branch (env w) ∧
  SERVERS w' = SERVERS w ∧
  return_value w' Tprod = return_value w Tprod ∧
  return_value w' Tr = return_value w Tr ∧
  ∃ new, issued w' = issued w ++ new.
Proof.
  intros Hrun.
  apply runs_once_inv in Hrun
    as [(v & _ & _ & ->)|(_ & w1 & Hrun & Henv & Hs & Hiss & Hother & _)].
  { repeat split; try done. exists []. by rewrite app_nil_r. }
  destruct (step_ok_deploy_def remote get_hosts branch w o w1 Hrun)
    as ((?&?&?&?&?&?&?&?&?&_) & Hs1 & Hmemo & new & Hnew & _).
  rewrite Henv, Hs, Hiss, !Hother, Hmemo by done.
  repeat split; try done. by exists new.
Qed.

Lemma deploy_def_split branch w :
  call (deploy_def remote get_hosts) branch w
  = (chosen ← deploy_settle remote get_hosts branch;
     deploy_rest remote get_hosts chosen) w.
Proof.
  cbv beta iota delta [call def deploy_def deploy_settle]. symmetry.
  rewrite bind_assoc. apply bind_ext. intros _ w1.
  rewrite bind_assoc. apply bind_ext. intros chosen w2.
  rewrite bind_assoc. apply bind_ext. intros _ w3.
  rewrite bind_assoc. apply bind_ext. intros e w4.
  rewrite bind_assoc. apply bind_ext. by intros _ w5.
Qed.

(** Side conditions of the commands that are no checkout and no reset, or
    are the checkout or the reset looked for. *)
Ltac command_side :=
  intros;
  repeat match goal with H : _ ∧ _ |- _ => destruct H end;
  split; [|by auto];
  split; intros ? ?;
  match goal with
  | Hc : command ?i = _, Heq : command ?i = _ |- _ => rewrite Hc in Heq
  end;
  first [ discriminate
        | match goal with
          | Heq : _ +:+ _ = _ +:+ _ |- _ => apply append_inj_l in Heq
          end; congruence ].

Lemma settle_check_git_dir (I : Env → Prop) :
  (∀ e x, I e → I (set_cwd x e)) → (∀ e x, I e → I (set_warn_only x e)) →
  hoare I no_checkout_reset (λ _, I) (call (_check_git_dir remote) tt).
Proof.
  intros Hcwd Hwarn. apply hoare_guarded. cbv beta iota delta [call def].
  hoare_inv I no_checkout_reset; try apply hoare_run; auto;
    unfold no_checkout_reset; command_side.
Qed.

Lemma settle_git_info (I : Env → Prop) branch :
  (∀ e x, I e → I (set_cwd x e)) → (∀ e x, I e → I (set_git_info x e)) →
  hoare I no_checkout_reset (λ _, I) (call (_git_info remote) branch).
Proof.
  intros Hcwd Hinfo. apply hoare_guarded. cbv beta iota delta [call def].
  hoare_inv I no_checkout_reset; try apply hoare_run; auto;
    unfold no_checkout_reset; command_side.
Qed.

Lemma rest_deploy_git x branch :
  hoare (λ e, env_git_revision e = Some x) (checkout_reset_of x branch)
        (λ _ e, env_git_revision e = Some x)
        (call (_deploy_git remote) branch).
Proof.
  apply hoare_guarded. cbv beta iota delta [call def].
  set (I := λ e, env_git_revision e = Some x).
  eapply (hoare_bind I _ (λ _, I)); [by apply hoare_attr|]. intros git_dir.
  eapply (hoare_bind I _ (λ _, I)); [|intros ?; by apply hoare_ret].
  apply hoare_cd; [done|].
  eapply (hoare_bind I _ (λ _, I)).
  { apply hoare_run. unfold checkout_reset_of. command_side. }
  intros _. eapply (hoare_bind I _ (λ _, I)).
  { apply hoare_run. unfold checkout_reset_of. command_side. }
  intros _.
  eapply (hoare_bind I _ (λ a e, I e ∧ a = x)).
  { apply hoare_attr. unfold I. intros e a He Ha. split; [done | congruence]. }
  intros a. apply hoare_run. unfold checkout_reset_of. command_side.
Qed.

Lemma rest_install x branch :
  hoare (λ e, env_git_revision e = Some x) (checkout_reset_of x branch)
        (λ _ e, env_git_revision e = Some x)
        (call (_install remote) tt).
Proof.
  apply hoare_guarded. cbv beta iota delta [call def].
  hoare_inv (λ e, env_git_revision e = Some x) (checkout_reset_of x branch);
    try apply hoare_run; auto; unfold checkout_reset_of; command_side.
Qed.

Lemma rest_restart x branch :
  hoare (λ e, env_git_revision e = Some x) (checkout_reset_of x branch)
        (λ _ e, env_git_revision e = Some x)
        (call (_restart remote) tt).
Proof.
  apply hoare_guarded. cbv beta iota delta [call def].
  hoare_inv (λ e, env_git_revision e = Some x) (checkout_reset_of x branch);
    try apply hoare_run; auto; unfold checkout_reset_of; command_side.
Qed.

Lemma rest_triple x branch :
  hoare (λ e, env_git_revision e = Some x) (checkout_reset_of x branch)
        (λ _ e, env_git_revision e = Some x)
        (deploy_rest remote get_hosts branch).
Proof.
  unfold deploy_rest.
  hoare_inv (λ e, env_git_revision e = Some x) (checkout_reset_of x branch);
    try done.
  - apply rest_deploy_git.
  - apply rest_install.
  - apply rest_restart.
Qed.

Lemma settle_triple gb branch :
  hoare (λ e, env_git_branch e = gb) no_checkout_reset
        (λ chosen e,
           (if truthy branch then branch = Some chosen else gb = Some chosen) ∧
           is_Some (env_git_revision e))
        (deploy_settle remote get_hosts branch).
Proof.
  unfold deploy_settle.
  set (I := λ e, env_git_branch e = gb).
  eapply (hoare_bind I _ (λ _, I)).
  { apply hoare_execute; [done|]. by apply settle_check_git_dir. }
  intros _.
  set (cond := λ chosen : string,
         if truthy branch then branch = Some chosen else gb = Some chosen).
  eapply (hoare_bind I _ (λ chosen e, cond chosen)).
  { unfold cond. destruct (truthy branch) eqn:Ht.
    - apply hoare_ret. intros e _. destruct branch; [done | discriminate].
    - apply hoare_attr. unfold I. intros e a He Ha. congruence. }
  intros chosen.
  eapply (hoare_bind (λ _, cond chosen) _ (λ _ _, cond chosen)).
  { apply hoare_execute; [done|]. by apply settle_git_info. }
  intros _.
  eapply (hoare_bind _ _ (λ e0 e, cond chosen ∧ e0 = e)).
  { by apply hoare_get_env. }
  intros e0.
  eapply (hoare_bind _ _ (λ _ e, cond chosen ∧ is_Some (env_git_revision e)));
    [|intros ?; by apply hoare_ret].
  destruct (truthy (env_git_revision e0)) eqn:Ht.
  - apply hoare_ret. intros e [Hc <-]. split; [done|].
    destruct (env_git_revision e0); [by eexists | discriminate].
  - eapply (hoare_bind _ _ (λ _ _, cond chosen)).
    { apply hoare_attr. by intros e a [? _] _. }
    intros git_info. apply hoare_modify_env. intros e Hc. split; [done|].
    by eexists.
Qed.

(** X8: a hard reset that [deploy] issues is to the chosen branch (the
    argument, or [env.git_branch] when the argument is missing or empty),
    and a checkout that it issues is of the revision that
    [env.git_revision] holds when [deploy] ends: of the revision given
    through [r] when there was one. *)
Theorem deploy_resets_and_checks_out (branch : option string) (w : World)
    (o : outcome value) (w' : World) :
  call (deploy remote get_hosts) branch w = (o, w') →
  ∃ new, issued w' = issued w ++ new ∧
    (∀ i b, i ∈ new → command i = "git reset --hard remotes/origin/" +:+ b →
            if truthy branch then branch = Some b
            else env_git_branch (env w) = Some b) ∧
    (∀ i y, i ∈ new → command i = "git checkout " +:+ y →
            env_git_revision (env w') = Some y ∧
            (truthy (env_git_revision (env w)) = true →
             env_git_revision (env w) = Some y)).
Proof.
  intros Hrun.
  pose proof (keeps_revision_deploy_def remote get_hosts branch) as Hkeep.
  apply runs_once_inv in Hrun
    as [(v & _ & _ & ->)|(_ & w4 & Hrun & Henv & _ & Hiss & _)].
  { exists []. rewrite app_nil_r. split; [done|].
    split; intros i ? Hi; by apply elem_of_nil in Hi. }
  rewrite Henv, Hiss. clear Henv Hiss w'.
  specialize (Hkeep w o w4 Hrun).
  rewrite deploy_def_split in Hrun.
  apply bind_inv in Hrun as [(e & Hsettle & ->)|(chosen & w3 & Hsettle & Hrest)].
  - destruct (settle_triple (env_git_branch (env w)) branch w _ w4 eq_refl Hsettle)
      as [(new & Hnew & Hall) _].
    exists new. split; [done|].
    split; intros i z Hi Hc;
      apply (proj1 (Forall_forall _ _) Hall) in Hi as [Hco Hre].
    + by destruct (Hre z).
    + by destruct (Hco z).
  - destruct (settle_triple (env_git_branch (env w)) branch w _ w3 eq_refl Hsettle)
      as [(new1 & Hnew1 & Hall1) Hpost].
    destruct (Hpost chosen eq_refl) as [Hchosen [x Hx]].
    destruct (rest_triple x chosen w3 o w4 Hx Hrest) as [(new2 & Hnew2 & Hall2) _].
    destruct (step_ok_deploy_rest remote get_hosts chosen w3 o w4 Hrest)
      as ((_&_&_&_&_&_&_&_&_&Hrev&_) & _).
    exists (new1 ++ new2). split; [by rewrite Hnew2, Hnew1, app_assoc|].
    split; intros i z Hi Hc; apply elem_of_app in Hi as [Hi|Hi].
    + apply (proj1 (Forall_forall _ _) Hall1) in Hi as [_ Hre]. by destruct (Hre z).
    + apply (proj1 (Forall_forall _ _) Hall2) in Hi as [_ Hre].
      rewrite (Hre z Hc). exact Hchosen.
    + apply (proj1 (Forall_forall _ _) Hall1) in Hi as [Hco _]. by destruct (Hco z).
    + apply (proj1 (Forall_forall _ _) Hall2) in Hi as [Hco _].
      rewrite (Hco z Hc). rewrite Hrev, Hx by done. split; [done|].
      intros Ht. rewrite <- (Hkeep Ht), Hrev, Hx by done. done.
Qed.

Lemma issues_run (Pre : Env → Prop) cmd : issues Pre [] [cmd] (run remote cmd).
Proof.
  intros w o w' _. unfold run. simpl.
  destruct (_ && _); intros [= <- <-]; simpl; (split; [done|]);
    eexists; (split; [done|]); rewrite app_nil_r;
    repeat split; try done; by repeat constructor.
Qed.

(** X9: on a permitted host, with [git_dir] and [git_revision] in the
    context, [_deploy_git] issues, inside [git_dir] and on the current
    host, the fetch of the branch, the hard reset to it and the checkout
    of [env.git_revision], in this order; it stops at the command that
    aborts, returns [None] only after all three, and leaves the context
    as it was. *)
Theorem _deploy_git_sequence (branch git_dir revision_ : string) (w : World)
    (o : outcome value) (w' : World) :
  permitted ["transcript"] (env w) →
  env_git_dir (env w) = Some git_dir →
  env_git_revision (env w) = Some revision_ →
  call (_deploy_git remote) branch w = (o, w') →
  env w' = env w ∧
  ∃ new, issued w' = issued w ++ new ∧
    Forall (λ i, on_host i = env_host (env w) ∧
                 in_dirs i = env_cwd (env w) ++ [git_dir]) new ∧
    command <$> new `prefix_of` deploy_git_commands branch revision_ ∧
    (∀ v, o = Return v →
          v = VNone ∧ command <$> new = deploy_git_commands branch revision_).
Proof.
  intros Hp Hdir Hrev Hrun.
  set (Pre := λ e, env_git_dir e = Some git_dir ∧
                   env_git_revision e = Some revision_).
  assert (Hissues : issues Pre [git_dir] (deploy_git_commands branch revision_)
                      (call (def (λ branch,
      git_dir ← attr "git_dir" env_git_dir;
      cd git_dir (
        run remote ("git fetch -q origin +" +:+ branch +:+ ":remotes/origin/" +:+ branch);;
        run remote ("git reset --hard remotes/origin/" +:+ branch);;
        git_revision ← attr "git_revision" env_git_revision;
        run remote ("git checkout " +:+ git_revision));;
      mret VNone)) branch)).
  { cbv beta iota delta [call def].
    apply (issues_attr Pre _ _ _ _ git_dir); [by intros e [? _]|].
    rewrite <- (app_nil_r (deploy_git_commands branch revision_)).
    apply issues_bind; [|intros ?; apply issues_ret].
    apply issues_cd; [done|].
    apply (issues_bind Pre [] [_] [_; _]); [apply issues_run|]. intros _.
    apply (issues_bind Pre [] [_] [_]); [apply issues_run|]. intros _.
    apply (issues_attr Pre _ _ _ _ revision_); [by intros e [_ ?]|].
    apply issues_run. }
  unfold _deploy_git in Hrun. rewrite strict_roles_run, decide_True in Hrun by done.
  destruct (Hissues w o w' (conj Hdir Hrev) Hrun)
    as (Henv & new & Hnew & Hall & Hpre & Hfull).
  split; [done|]. exists new.
  split; [done|]. split; [done|]. split; [done|].
  intros v ->. split; [|by apply (Hfull v)].
  cbv beta iota delta [call def] in Hrun.
  apply bind_inv_return in Hrun as (? & ? & _ & Hrun).
  apply bind_inv_return in Hrun as (? & ? & _ & Hrun).
  by injection Hrun as <- _.
Qed.

(** X10: [_deploy_git] reads [env.git_revision] only after the fetch and
    the hard reset.  Without a [git_revision] in the context it never
    returns on a permitted host, and when it ends in the attribute error
    both commands have already been issued. *)
Theorem _deploy_git_without_revision (branch git_dir : string) (w : World)
    (o : outcome value) (w' : World) :
  permitted ["transcript"] (env w) →
  env_git_dir (env w) = Some git_dir →
  env_git_revision (env w) = None →
  call (_deploy_git remote) branch w = (o, w') →
  ∃ e new, o = Throw e ∧ issued w' = issued w ++ new ∧
    command <$> new
      `prefix_of`
      ["git fetch -q origin +" +:+ branch +:+ ":remotes/origin/" +:+ branch;
       "git reset --hard remotes/origin/" +:+ branch] ∧
    (e = AttributeError "git_revision" →
     command <$> new
     = ["git fetch -q origin +" +:+ branch +:+ ":remotes/origin/" +:+ branch;
        "git reset --hard remotes/origin/" +:+ branch]).
Proof.
  intros Hp Hdir Hrev Hrun.
  unfold _deploy_git in Hrun. rewrite strict_roles_run, decide_True in Hrun by done.
  cbv beta iota delta [call def] in Hrun.
  unfold mbind at 1, M_bind at 1, attr at 1 in Hrun. rewrite Hdir in Hrun.
  apply bind_inv in Hrun as [(e & Hcd & ->)|(? & w1 & Hcd & _)];
    apply with_block_inv in Hcd as (w2 & Hbody & ->); simpl.
  - exists e.
    apply bind_inv in Hbody as [(e1 & Hfetch & [= <-])|(i1 & w3 & Hfetch & Hbody)].
    { destruct (issues_run (λ _, True) _ _ _ _ I Hfetch)
        as (_ & new & Hnew & _ & Hpre & _).
      exists new. split; [done|]. split; [done|]. split.
      - etrans; [exact Hpre|]. by eexists.
      - intros ->. unfold run in Hfetch. simpl in Hfetch.
        by destruct (_ && _). }
    destruct (issues_run (λ _, True) _ _ _ _ I Hfetch)
      as (_ & new1 & Hnew1 & _ & _ & Hfull1).
    specialize (Hfull1 _ eq_refl).
    apply bind_inv in Hbody as [(e2 & Hreset & [= <-])|(i2 & w4 & Hreset & Hbody)].
    { destruct (issues_run (λ _, True) _ _ _ _ I Hreset)
        as (_ & new2 & Hnew2 & _ & Hpre2 & _).
      exists (new1 ++ new2). split; [done|].
      split; [by rewrite Hnew2, Hnew1, app_assoc|].
      rewrite fmap_app, Hfull1. split.
      - by apply (prefix_app [_] _ [_]).
      - intros ->. unfold run in Hreset. simpl in Hreset.
        by destruct (_ && _). }
    destruct (issues_run (λ _, True) _ _ _ _ I Hreset)
      as (Henv2 & new2 & Hnew2 & _ & _ & Hfull2).
    specialize (Hfull2 _ eq_refl).
    destruct (issues_run (λ _, True) _ _ _ _ I Hfetch) as (Henv1 & _).
    unfold mbind, M_bind, attr in Hbody.
    rewrite Henv2, Henv1 in Hbody. simpl in Hbody. rewrite Hrev in Hbody.
    injection Hbody as <- <-.
    exists (new1 ++ new2). split; [done|].
    split; [by rewrite Hnew2, Hnew1, app_assoc|].
    by rewrite fmap_app, Hfull1, Hfull2.
  - exfalso.
    apply bind_inv_return in Hbody as (i1 & w3 & Hfetch & Hbody).
    apply bind_inv_return in Hbody as (i2 & w4 & Hreset & Hbody).
    destruct (issues_run (λ _, True) _ _ _ _ I Hfetch) as (Henv1 & _).
    destruct (issues_run (λ _, True) _ _ _ _ I Hreset) as (Henv2 & _).
    unfold mbind, M_bind, attr in Hbody.
    rewrite Henv2, Henv1 in Hbody. simpl in Hbody. by rewrite Hrev in Hbody.
Qed.

(** X11: on a permitted host with [git_dir] in the context, [_install]
    issues its five commands inside [git_dir], in the order of the
    source, stops at the command that aborts, returns [None] only after
    all five, and leaves the context as it was. *)
Theorem _install_sequence (git_dir : string) (w : World)
    (o : outcome value) (w' : World) :
  permitted ["transcript"] (env w) →
  env_git_dir (env w) = Some git_dir →
  call (_install remote) tt w = (o, w') →
  env w' = env w ∧
  ∃ new, issued w' = issued w ++ new ∧
    Forall (λ i, on_host i = env_host (env w) ∧
                 in_dirs i = env_cwd (env w) ++ [git_dir]) new ∧
    command <$> new `prefix_of` install_commands ∧
    (∀ v, o = Return v → v = VNone ∧ command <$> new = install_commands).
Proof.
  intros Hp Hdir Hrun.
  set (Pre := λ e, env_git_dir e = Some git_dir).
  unfold _install in Hrun. rewrite strict_roles_run, decide_True in Hrun by done.
  cbv beta iota delta [call def] in Hrun.
  assert (Hv : ∀ v, o = Return v → v = VNone).
  { intros v ->.
    apply bind_inv_return in Hrun as (? & ? & _ & Hrun).
    apply bind_inv_return in Hrun as (? & ? & _ & Hrun).
    by injection Hrun as <- _. }
  revert Hrun.
  match goal with
  | |- ?m w = _ → _ =>
      assert (Hissues : issues Pre [git_dir] install_commands m)
  end.
  { apply (issues_attr Pre _ _ _ _ git_dir); [done|].
    rewrite <- (app_nil_r install_commands).
    apply issues_bind; [|intros ?; apply issues_ret].
    apply issues_cd; [done|]. unfold install_commands.
    apply (issues_bind Pre [] [_] [_; _; _; _]); [apply issues_run|]. intros _.
    apply (issues_bind Pre [] [_] [_; _; _]); [apply issues_run|]. intros _.
    apply (issues_bind Pre [] [_] [_; _]); [apply issues_run|]. intros _.
    apply (issues_bind Pre [] [_] [_]); [apply issues_run|]. intros _.
    apply issues_run. }
  intros Hrun.
  destruct (Hissues w o w' Hdir Hrun) as (Henv & new & Hnew & Hall & Hpre & Hfull).
  split; [done|]. exists new.
  split; [done|]. split; [done|]. split; [done|].
  intros v Ho. split; [by apply Hv | by apply (Hfull v)].
Qed.

(** X12: [_git_info] is all or nothing.  On a permitted host without
    [git_info] in the context, a call that raises leaves the context as it
    was, [git_info] unset; a call that returns has issued its five
    commands and has set [git_info] from their outputs: [revision] from
    the [rev-parse], [changed_files] from the lines of the diff,
    [previous_commit] from the log of [HEAD], [deployed_commit] from the
    log of the branch; nothing else in the context changes. *)
Theorem _git_info_all_or_nothing (branch : string) (w : World)
    (o : outcome value) (w' : World) :
  permitted ["transcript"] (env w) →
  env_git_info (env w) = None →
  call (_git_info remote) branch w = (o, w') →
  (∀ e, o = Throw e → env w' = env w) ∧
  (∀ v, o = Return v →
     v = VNone ∧
     ∃ i1 i2 i3 i4 i5,
       issued w' = issued w ++ [i1; i2; i3; i4; i5] ∧
       command <$> [i1; i2; i3; i4; i5]
       = ["git fetch -q origin +" +:+ branch +:+ ":remotes/origin/" +:+ branch;
          "git rev-parse remotes/origin/" +:+ branch;
          "git diff --no-color --name-only remotes/origin/" +:+ branch +:+ " | cat";
          "git log --no-color -1 --full-history HEAD | cat";
          "git log --no-color -1 --full-history remotes/origin/" +:+ branch
            +:+ " | cat"] ∧
       env w' = set_git_info (Some
                  {| revision := stdout i2;
                     previous_commit := stdout i4;
                     deployed_commit := stdout i5;
                     changed_files := split_lines (stdout i3) |}) (env w)).
Proof.
  intros Hp Hinfo Hrun.
  unfold _git_info in Hrun. rewrite strict_roles_run, decide_True in Hrun by done.
  cbv beta iota delta [call def] in Hrun.
  apply bind_inv in Hrun as [(? & [=] & _)|(e0 & w0 & [= <- <-] & Hrun)].
  rewrite bool_decide_eq_false_2 in Hrun by (rewrite Hinfo; by intros [? ?]).
  apply bind_inv in Hrun as [(e & Hattr & ->)|(git_dir & w0 & Hattr & Hrun)].
  { unfold attr in Hattr. destruct (env_git_dir (env w)); [done|].
    injection Hattr as _ <-. split; [done|]. by intros v. }
  unfold attr in Hattr. destruct (env_git_dir (env w)) as [dir|]; [|done].
  injection Hattr as <- <-.
  assert (Hblock : ∀ o5 w5,
            cd dir (hide (
              run remote ("git fetch -q origin +" +:+ branch +:+ ":remotes/origin/" +:+ branch);;
              revision_ ← run remote ("git rev-parse remotes/origin/" +:+ branch);
              changed_files_ ← run remote ("git diff --no-color --name-only remotes/origin/"
                                           +:+ branch +:+ " | cat");
              previous_commit_ ← run remote "git log --no-color -1 --full-history HEAD | cat";
              deployed_commit_ ← run remote ("git log --no-color -1 --full-history remotes/origin/"
                                             +:+ branch +:+ " | cat");
              mret (revision_, changed_files_, previous_commit_, deployed_commit_))) w
            = (o5, w5) → env w5 = env w).
  { intros o5 w5 Hcd.
    eapply (issues_cd (λ _, True) dir); [done| |done|exact Hcd].
    unfold hide.
    do 5 (eapply issues_bind; [apply issues_run|]; intros ?).
    apply issues_ret. }
  apply bind_inv in Hrun as [(e & Hcd & ->)|([[[rev cf] pc] dc] & w5 & Hcd & Hrun)].
  { split; [|by intros v]. intros _ _. by apply (Hblock _ _ Hcd). }
  pose proof (Hblock _ _ Hcd) as Hframe.
  injection Hrun as <- <-. split; [done|]. intros v [= <-]. split; [done|].
  apply with_block_inv in Hcd as (w4 & Hbody & Hw5). unfold hide in Hbody.
  apply bind_inv_return in Hbody as (i1 & w1 & Hr1 & Hbody).
  apply bind_inv_return in Hbody as (i2 & w2 & Hr2 & Hbody).
  apply bind_inv_return in Hbody as (i3 & w3 & Hr3 & Hbody).
  apply bind_inv_return in Hbody as (i4 & w3' & Hr4 & Hbody).
  apply bind_inv_return in Hbody as (i5 & w4' & Hr5 & Hbody).
  injection Hbody as <- <- <- <- <-.
  apply run_inv_return in Hr1 as (Hc1 & _ & Hi1).
  apply run_inv_return in Hr2 as (Hc2 & _ & Hi2).
  apply run_inv_return in Hr3 as (Hc3 & _ & Hi3).
  apply run_inv_return in Hr4 as (Hc4 & _ & Hi4).
  apply run_inv_return in Hr5 as (Hc5 & _ & Hi5).
  exists i1, i2, i3, i4, i5. simpl.
  split; [|split].
  - rewrite Hw5. simpl. rewrite Hi5, Hi4, Hi3, Hi2, Hi1. simpl.
    by rewrite <- !app_assoc.
  - by rewrite Hc1, Hc2, Hc3, Hc4, Hc5.
  - by rewrite Hframe.
Qed.

(** X13: [deploy] runs once.  After a [deploy] that returned, a further
    call, for any branch, returns the same value and changes nothing, no
    command issued; after a [deploy] that raised, its memo is as before,
    so that a further call runs it again. *)
Theorem deploy_runs_once (branch branch' : option string) (w : World)
    (o : outcome value) (w1 : World) :
  call (deploy remote get_hosts) branch w = (o, w1) →
  (∀ v, o = Return v →
        call (deploy remote get_hosts) branch' w1 = (Return v, w1)) ∧
  (∀ e, o = Throw e → return_value w1 Tdeploy = return_value w Tdeploy).
Proof.
  intros Hrun. split.
  - intros v ->. unfold deploy in *.
    apply runs_once_inv in Hrun
      as [(v' & Hmemo & [= <-] & ->)|(_ & w2 & _ & _ & _ & _ & _ & Hmemo)].
    + by rewrite runs_once_run, Hmemo.
    + by rewrite runs_once_run, (Hmemo v eq_refl).
  - intros e ->. unfold deploy in Hrun. rewrite runs_once_run in Hrun.
    destruct (return_value w Tdeploy) eqn:Hmemo; [done|].
    apply bind_inv in Hrun as [(e' & Hrun & _)|(v & w2 & _ & [=])].
    destruct (step_ok_deploy_def remote get_hosts branch w _ w1 Hrun)
      as (_ & _ & Hsame & _).
    by rewrite Hsame.
Qed.

(** X14: a [deploy] without a branch, in a context where no environment
    task has set [git_branch], cannot get past the choice of the branch:
    it raises, and leaves the whole context and the memo as they were. *)
Theorem deploy_without_branch (branch : option string) (w : World)
    (o : outcome value) (w' : World) :
  truthy branch = false →
  env_git_branch (env w) = None →
  return_value w Tdeploy = None →
  call (deploy remote get_hosts) branch w = (o, w') →
  (∃ e, o = Throw e) ∧ env w' = env w ∧ return_value w' = return_value w ∧
  ((∃ r w1, execute get_hosts (_check_git_dir remote) tt w = (Return r, w1)) →
   o = Throw (AttributeError "git_branch")).
Proof.
  intros Hb Hgb Hmemo Hrun. unfold deploy in Hrun.
  rewrite runs_once_run, Hmemo in Hrun.
  assert (∃ e, call (deploy_def remote get_hosts) branch w = (Throw e, w') ∧
               o = Throw e ∧ env w' = env w ∧
               ((∃ r w1, execute get_hosts (_check_git_dir remote) tt w
                         = (Return r, w1)) →
                e = AttributeError "git_branch")) as (e & Hdef & -> & Henv & Hexn).
  { apply bind_inv in Hrun as [(e & Hrun & ->)|(v & w2 & Hrun & _)].
    - exists e. split; [done|]. split; [done|].
      cbv beta iota delta [call def deploy_def] in Hrun.
      apply bind_inv in Hrun as [(e' & Hcheck & [= <-])|(r & w1 & Hcheck & Hrun)].
      + destruct (step_ok_execute get_hosts touch_nothing _ tt
                    (step_ok_check_git_dir remote touch_nothing) w _ w' Hcheck)
          as (Hf%Env_eq & _).
        split; [done|]. intros (r & w1 & Hret). congruence.
      + destruct (step_ok_execute get_hosts touch_nothing _ tt
                    (step_ok_check_git_dir remote touch_nothing) w _ w1 Hcheck)
          as (Hf%Env_eq & _).
        rewrite Hb in Hrun. unfold mbind at 1, M_bind at 1, attr in Hrun.
        rewrite Hf, Hgb in Hrun. injection Hrun as <- <-. done.
    - exfalso. cbv beta iota delta [call def deploy_def] in Hrun.
      apply bind_inv_return in Hrun as (r & w1 & Hcheck & Hrun).
      destruct (step_ok_execute get_hosts touch_nothing _ tt
                  (step_ok_check_git_dir remote touch_nothing) w _ w1 Hcheck)
        as (Hf%Env_eq & _).
      rewrite Hb in Hrun. unfold mbind at 1, M_bind at 1, attr in Hrun.
      by rewrite Hf, Hgb in Hrun. }
  split; [by exists e|]. split; [done|]. split; [|by intros ?%Hexn; subst].
  by destruct (step_ok_deploy_def remote get_hosts branch w _ w' Hdef)
    as (_ & _ & ? & _).
Qed.

(** X16: on a permitted host with [git_dir] in the context,
    [_check_git_dir] tests for [git_dir] from the current directory and,
    when the test failed, clones [REPO] from ["~/"] below the current
    directory: the clone command names no target, it is the same
    whatever [git_dir] is.  The test is not repeated: after a clone that
    did not fail the task returns [None].  However the task ends, the
    context, directory and warn-only flag included, is as it was. *)
Theorem _check_git_dir_clones_in_home (git_dir : string) (w : World)
    (o : outcome value) (w' : World) :
  permitted ["transcript"] (env w) →
  env_git_dir (env w) = Some git_dir →
  call (_check_git_dir remote) tt w = (o, w') →
  env w' = env w ∧
  ∃ check,
    command check = "test -d " +:+ git_dir ∧
    on_host check = env_host (env w) ∧
    in_dirs check = env_cwd (env w) ∧
    if failed check
    then ∃ clone,
           issued w' = issued w ++ [check; clone] ∧
           command clone = "git clone " +:+ REPO ∧
           on_host clone = env_host (env w) ∧
           in_dirs clone = env_cwd (env w) ++ ["~/"] ∧
           (failed clone = false → o = Return VNone) ∧
           (∀ v, o = Return v → v = VNone)
    else issued w' = issued w ++ [check] ∧ o = Return VNone.
Proof.
  intros Hp Hdir. unfold _check_git_dir.
  rewrite strict_roles_run, decide_True by done.
  cbv beta iota delta [call def].
  unfold settings_warn_only, cd, with_block, attr, run, mbind, M_bind, mret, M_ret.
  simpl. rewrite Hdir. simpl. rewrite andb_false_r. simpl.
  set (answer := remote (issued w) (env_host (env w)) (env_cwd (env w))
                   ("test -d " +:+ git_dir)).
  set (check := {| on_host := env_host (env w); in_dirs := env_cwd (env w);
                   command := "test -d " +:+ git_dir; warned := true;
                   failed := answer.1; stdout := answer.2 |}).
  assert (Henv : set_warn_only (env_warn_only (env w)) (set_warn_only true (env w))
                 = env w) by by destruct (env w).
  assert (Hcwd : ∀ ds, set_cwd (env_cwd (env w)) (set_cwd ds (env w)) = env w)
    by by destruct (env w).
  destruct answer.1 eqn:Hfailed; simpl.
  - rewrite Henv.
    match goal with
    | |- context [if ?b then _ else _] => destruct b eqn:Hclone
    end; simpl; intros [= <- <-]; simpl; (split; [by rewrite Hcwd|]);
      exists check; simpl; (split; [done|]); (split; [done|]); (split; [done|]);
      subst check; simpl; try rewrite Hfailed; eexists; simpl; (split; [by rewrite <- app_assoc|]);
      simpl; (split; [done|]); (split; [done|]); (split; [done|]); split; try done.
    + intros Hok. rewrite Hok in Hclone. done.
    + by intros v [= <-].
  - intros [= <- <-]. simpl. split; [done|].
    exists check; simpl; (split; [done|]); (split; [done|]); (split; [done|]).
    subst check; simpl; try rewrite Hfailed. done.
Qed.
End Commands.

(** * Further properties of the guard *)

(** X3: two guards on top of each other let the task run only with both
    permissions: the call of [strict_roles(A)(strict_roles(B)(f))] is the
    call of [f] when the current host is under a role of [A] and under a
    role of [B], and returns [False] without any effect otherwise; the
    dispatcher sees the roles [A] of the outer guard. *)
Theorem strict_roles_stacked {Args : Type} (A B : role_args)
    (func : Callable Args) (args : Args) (w : World) :
  roles_attr (strict_roles A (strict_roles B func)) = Some (list_values A) ∧
  call (strict_roles A (strict_roles B func)) args w
  = if decide (permitted (list_values A) (env w) ∧
               permitted (list_values B) (env w))
    then call func args w else (Return (VBool false), w).
Proof.
  split; [apply strict_roles_roles_attr|].
  rewrite !strict_roles_run.
  destruct (decide (permitted (list_values A) (env w))) as [HA|HA];
    destruct (decide (permitted (list_values B) (env w))) as [HB|HB].
  - by rewrite decide_True.
  - rewrite decide_False; [done | by intros [_ ?]].
  - rewrite decide_False; [done | by intros [? _]].
  - rewrite decide_False; [done | by intros [? _]].
Qed.

(** X4: the guard depends on the set of its roles only: two role lists
    with the same members, in any order and with any repetition, guard a
    task alike, and the task is called at most once, also for a host that
    is listed under several of the roles. *)
Theorem strict_roles_same_members {Args : Type} (roles1 roles2 : list string)
    (func : Callable Args) (args : Args) (w : World) :
  (∀ role, role ∈ roles1 ↔ role ∈ roles2) →
  call (strict_roles (Names roles1) func) args w
  = call (strict_roles (Names roles2) func) args w.
Proof.
  intros Hsame. rewrite !strict_roles_run. simpl.
  assert (permitted roles1 (env w) ↔ permitted roles2 (env w)) as Hiff.
  { unfold permitted. rewrite !Exists_exists.
    split; intros (role & Hin & Hp); exists role; split; try done;
      by apply Hsame. }
  destruct (decide (permitted roles1 (env w))) as [Hp|Hp].
  - rewrite decide_True; [done | by apply Hiff].
  - rewrite decide_False; [done | by rewrite <- Hiff].
Qed.

Lemma strict_roles_same_members_witness :
  call (strict_roles (Names ["X"; "Y"; "X"]) probe) tt on_host1
  = call (strict_roles (Names ["Y"; "X"]) probe) tt on_host1.
Proof.
  apply (strict_roles_same_members ["X"; "Y"; "X"] ["Y"; "X"] probe tt on_host1).
  intros role. rewrite !elem_of_cons, !elem_of_nil. tauto.
Defined.

(** * Further properties of the context tasks *)

(** X5: [r] gives [env.git_revision] the revision of its first call and
    changes nothing else; being [runs_once], a later call with another
    revision is answered from the memo and leaves the first revision in
    place. *)
Theorem r_keeps_first_revision (revision1 revision2 : string) (w : World) :
  return_value w Tr = None →
  ∃ w1,
    call r revision1 w = (Return VNone, w1) ∧
    env w1 = set_git_revision (Some revision1) (env w) ∧
    SERVERS w1 = SERVERS w ∧ issued w1 = issued w ∧
    call r revision2 w1 = (Return VNone, w1).
Proof.
  intros Hmemo. unfold r. rewrite !runs_once_run, Hmemo.
  eexists. split; [reflexivity|]. repeat split.
Qed.

Lemma r_keeps_first_revision_witness :
  ∃ w1,
    call r "v1.0" after_prod = (Return VNone, w1) ∧
    env w1 = set_git_revision (Some "v1.0") (env after_prod) ∧
    SERVERS w1 = SERVERS after_prod ∧ issued w1 = issued after_prod ∧
    call r "v2.0" w1 = (Return VNone, w1).
Proof.
  apply (r_keeps_first_revision "v1.0" "v2.0" after_prod). reflexivity.
Defined.

(** X6: when the context has an [environment] [E],
    [_load_shared_env_dict] returns, and from then on the guard of a role
    [R] lets a task run on host [h] exactly when the registry has a
    descriptor with host [h] that lists [R] and whose environment is [E]
    or ["all"]; [git_branch] is [E]. *)
Theorem loaded_guard_follows_registry (E : string) (w : World) :
  env_environment (env w) = Some E →
  ∃ w', _load_shared_env_dict w = (Return tt, w') ∧
    SERVERS w' = SERVERS w ∧
    env_git_branch (env w') = Some E ∧
    ∀ (Args : Type) (func : Callable Args) (args : Args) (R h : string),
      let on_h := with_env (set_host (Some h) (env w')) w' in
      ((∃ server traits,
          (server, traits) ∈ SERVERS w ∧ host traits = h ∧ R ∈ roles traits ∧
          (environment traits = E ∨ environment traits = "all")) →
       call (strict_roles (Names [R]) func) args on_h = call func args on_h) ∧
      (¬ (∃ server traits,
            (server, traits) ∈ SERVERS w ∧ host traits = h ∧ R ∈ roles traits ∧
            (environment traits = E ∨ environment traits = "all")) →
       call (strict_roles (Names [R]) func) args on_h
       = (Return (VBool false), on_h)).
Proof.
  intros HE. unfold _load_shared_env_dict.
  unfold mbind, M_bind, attr, modify_env, get_env. simpl.
  rewrite HE. simpl. rewrite HE. simpl.
  eexists. split; [reflexivity|]. split; [done|]. split; [done|].
  intros Args func args R h.
  match goal with |- context [call func args ?x] => set (on_h := x) end.
  assert (Hiff : permitted [R] (env on_h) ↔
            ∃ server traits,
              (server, traits) ∈ SERVERS w ∧ host traits = h ∧ R ∈ roles traits ∧
              (environment traits = E ∨ environment traits = "all")).
  { unfold permitted. rewrite Exists_cons, Exists_nil. simpl.
    rewrite fill_roledefs_lookup, lookup_empty.
    destruct (decide (R ∈ list_of_set (listed_roles (SERVERS w)))) as [Hin|Hnin];
      simpl.
    - rewrite elem_of_hosts_serving. unfold serves.
      split.
      + intros [(server & traits & ? & ? & ? & Henv)|[]].
        exists server, traits. repeat split; try done. destruct Henv; auto.
      + intros (server & traits & ? & ? & ? & Henv). left.
        exists server, traits. repeat split; try done. destruct Henv; auto.
    - split.
      + intros [Hh|[]]. by apply elem_of_nil in Hh.
      + intros (server & traits & Hs & _ & HR & _). exfalso. apply Hnin.
        apply elem_of_list_of_set, elem_of_listed_roles. by exists server, traits. }
  rewrite strict_roles_run. simpl list_values.
  split; intros Hd.
  - rewrite decide_True; [done | by apply Hiff].
  - rewrite decide_False; [done | by rewrite Hiff].
Qed.

Lemma loaded_guard_follows_registry_witness :
  ∃ w', _load_shared_env_dict
          (with_env (set_environment (Some "staging") initial_env)
             (with_servers two_servers initial_world)) = (Return tt, w') ∧
        env_git_branch (env w') = Some "staging".
Proof.
  destruct (loaded_guard_follows_registry "staging"
              (with_env (set_environment (Some "staging") initial_env)
                 (with_servers two_servers initial_world)) eq_refl)
    as (w' & Hrun & _ & Hbranch & _).
  exists w'. split; [exact Hrun | exact Hbranch].
Defined.

(** X7: without an [environment] in the context, [_load_shared_env_dict]
    raises the attribute error of [env.environment], and by then it has
    assigned [user] and [git_dir] and nothing else: [roledefs], [roles]
    and [git_branch] are as before. *)
Theorem load_without_environment (w : World) :
  env_environment (env w) = None →
  ∃ w', _load_shared_env_dict w = (Throw (AttributeError "environment"), w') ∧
    env w' = set_git_dir (Some "/opt/transcript/transcript-editor")
               (set_user (Some "transcript") (env w)) ∧
    SERVERS w' = SERVERS w ∧ issued w' = issued w ∧
    return_value w' = return_value w.
Proof.
  intros HE. unfold _load_shared_env_dict.
  unfold mbind, M_bind, attr, modify_env, get_env. simpl. rewrite HE.
  eexists. split; [reflexivity|]. done.
Qed.

Lemma load_without_environment_witness :
  ∃ w', _load_shared_env_dict initial_world
        = (Throw (AttributeError "environment"), w') ∧
    env w' = set_git_dir (Some "/opt/transcript/transcript-editor")
               (set_user (Some "transcript") (env initial_world)) ∧
    SERVERS w' = SERVERS initial_world ∧ issued w' = issued initial_world ∧
    return_value w' = return_value initial_world.
Proof. apply (load_without_environment initial_world). reflexivity. Defined.


(** * The lines of the diff *)

Lemma split_lines_not_nil s : split_lines s ≠ [].
Proof.
  destruct s as [|c s]; simpl; [done|].
  case_decide; [done|]. by destruct (split_lines s).
Qed.

(** X15: the [changed_files] that [_git_info] takes from the output of
    the diff, [output.split('\n')], are never the empty list: an empty
    output gives the single entry [''].  No entry holds a newline, and
    the entries joined by newlines are the output again. *)
Theorem split_lines_round_trip (output : string) :
  split_lines output ≠ [] ∧
  split_lines "" = [""] ∧
  Forall (λ line, has_newline line = false) (split_lines output) ∧
  join_lines (split_lines output) = output.
Proof.
  split; [apply split_lines_not_nil|]. split; [done|].
  induction output as [|c output [IHno IHjoin]]; simpl.
  { split; [by repeat constructor | done]. }
  pose proof (split_lines_not_nil output) as Hne.
  case_decide as Hc.
  - split.
    + by constructor.
    + simpl. destruct (split_lines output) as [|line rest]; [done|].
      rewrite IHjoin. by subst c.
  - destruct (split_lines output) as [|line rest]; [done|]. split.
    + apply Forall_cons in IHno as [Hline Hrest]. constructor; [|done].
      simpl. by rewrite bool_decide_eq_false_2.
    + simpl in *. destruct rest; by rewrite <- IHjoin.
Qed.

(** * Instances of the further properties *)

Lemma on_prod_host_r_permitted : permitted ["transcript"] (env on_prod_host_r).
Proof.
  apply Exists_cons_hd. vm_compute. apply elem_of_cons. by left.
Defined.

Lemma deploy_commands_on_role_hosts_witness :
  ∃ new,
    issued (call (deploy remote_ok careless_hosts) None after_prod).2
    = issued after_prod ++ new ∧
    (∀ i, i ∈ new →
          ∃ h, on_host i = Some h ∧
               h ∈ default [] (env_roledefs (env after_prod) !! "transcript")) ∧
    (default [] (env_roledefs (env after_prod) !! "transcript") = [] → new = []).
Proof.
  apply (deploy_commands_on_role_hosts remote_ok careless_hosts None after_prod
           _ _ (surjective_pairing _)).
Defined.

Lemma deploy_restores_context_witness :
  env_host (env (call (deploy remote_no_git_dir fabric_hosts) None after_prod).2)
  = env_host (env after_prod).
Proof.
  apply (deploy_restores_context remote_no_git_dir fabric_hosts None after_prod
           _ _ (surjective_pairing _)).
Defined.

Lemma deploy_resets_and_checks_out_witness :
  ∃ new,
    issued (call (deploy remote_ok fabric_hosts) (Some "dev") after_r).2
    = issued after_r ++ new ∧
    (∀ i b, i ∈ new → command i = "git reset --hard remotes/origin/" +:+ b →
            Some "dev" = Some b) ∧
    (∀ i y, i ∈ new → command i = "git checkout " +:+ y →
            env_git_revision
              (env (call (deploy remote_ok fabric_hosts) (Some "dev") after_r).2)
            = Some y ∧
            (truthy (env_git_revision (env after_r)) = true →
             env_git_revision (env after_r) = Some y)).
Proof.
  apply (deploy_resets_and_checks_out remote_ok fabric_hosts (Some "dev") after_r
           _ _ (surjective_pairing _)).
Defined.

Lemma _deploy_git_sequence_witness :
  env (call (_deploy_git remote_ok) "master" on_prod_host_r).2
  = env on_prod_host_r.
Proof.
  apply (_deploy_git_sequence remote_ok "master"
           "/opt/transcript/transcript-editor" "v1.0" on_prod_host_r _ _
           on_prod_host_r_permitted eq_refl eq_refl (surjective_pairing _)).
Defined.

Lemma _deploy_git_without_revision_witness :
  ∃ e new,
    (call (_deploy_git remote_ok) "master" on_prod_host).1 = Throw e ∧
    issued (call (_deploy_git remote_ok) "master" on_prod_host).2
    = issued on_prod_host ++ new ∧
    command <$> new
      `prefix_of`
      ["git fetch -q origin +" +:+ "master" +:+ ":remotes/origin/" +:+ "master";
       "git reset --hard remotes/origin/" +:+ "master"] ∧
    (e = AttributeError "git_revision" →
     command <$> new
     = ["git fetch -q origin +" +:+ "master" +:+ ":remotes/origin/" +:+ "master";
        "git reset --hard remotes/origin/" +:+ "master"]).
Proof.
  apply (_deploy_git_without_revision remote_ok "master"
           "/opt/transcript/transcript-editor" on_prod_host _ _
           on_prod_host_permitted eq_refl eq_refl (surjective_pairing _)).
Defined.

Lemma _install_sequence_witness :
  env (call (_install remote_ok) tt on_prod_host).2 = env on_prod_host.
Proof.
  apply (_install_sequence remote_ok "/opt/transcript/transcript-editor"
           on_prod_host _ _ on_prod_host_permitted eq_refl
           (surjective_pairing _)).
Defined.

Lemma _git_info_all_or_nothing_witness :
  ∃ i1 i2 i3 i4 i5,
    issued (call (_git_info remote_ok) "master" on_prod_host).2
    = issued on_prod_host ++ [i1; i2; i3; i4; i5] ∧
    command <$> [i1; i2; i3; i4; i5]
    = ["git fetch -q origin +" +:+ "master" +:+ ":remotes/origin/" +:+ "master";
       "git rev-parse remotes/origin/" +:+ "master";
       "git diff --no-color --name-only remotes/origin/" +:+ "master" +:+ " | cat";
       "git log --no-color -1 --full-history HEAD | cat";
       "git log --no-color -1 --full-history remotes/origin/" +:+ "master"
         +:+ " | cat"] ∧
    env (call (_git_info remote_ok) "master" on_prod_host).2
    = set_git_info (Some
        {| revision := stdout i2;
           previous_commit := stdout i4;
           deployed_commit := stdout i5;
           changed_files := split_lines (stdout i3) |}) (env on_prod_host).
Proof.
  assert (Hinfo : env_git_info (env on_prod_host) = None)
    by (vm_compute; reflexivity).
  apply (proj2 (_git_info_all_or_nothing remote_ok "master" on_prod_host _ _
                  on_prod_host_permitted Hinfo (surjective_pairing _)) VNone).
  vm_compute. reflexivity.
Defined.

Lemma deploy_runs_once_witness :
  call (deploy remote_ok fabric_hosts) (Some "dev") deployed
  = (Return VNone, deployed).
Proof.
  apply (proj1 (deploy_runs_once remote_ok fabric_hosts None (Some "dev")
                  after_prod _ _ (surjective_pairing _)) VNone).
  vm_compute. reflexivity.
Defined.

Lemma deploy_without_branch_witness :
  env (call (deploy remote_ok careless_hosts) (Some "") initial_world).2
  = env initial_world.
Proof.
  apply (deploy_without_branch remote_ok careless_hosts (Some "") initial_world
           _ _ eq_refl eq_refl eq_refl (surjective_pairing _)).
Defined.

Lemma _check_git_dir_clones_in_home_witness :
  env (call (_check_git_dir remote_no_git_dir) tt on_prod_host).2
  = env on_prod_host.
Proof.
  eapply (_check_git_dir_clones_in_home remote_no_git_dir
            "/opt/transcript/transcript-editor" on_prod_host).
  - apply on_prod_host_permitted.
  - vm_compute. reflexivity.
  - apply surjective_pairing.
Defined.
